(** * react-simplified: hook store, reconciler and display projector

    A shallow embedding of [src/react/init.js], [src/react/render.js] and
    [src/react/utils.js].  JavaScript values are a small inductive type,
    objects live in a heap addressed by location (so that aliasing and the
    in-place writes of [reconcile] are visible), and every function of the
    engine is a computation in a state-and-exception monad over the engine
    state: the heap, the [hooks] array and [index] cursor of [init], and the
    module variables [_component], [_root], [_hooks] of [render.js].

    Outside the model: prototype members (a read of [toString] on a plain
    object gives [undefined] here), getters and setters, symbols and
    bigints, and holes in arrays (a hole reads as [undefined]). *)

From Stdlib Require Import ZArith String Ascii List Bool Lia.
From Stdlib Require Import Floats.SpecFloat Numbers.DecimalString Numbers.DecimalNat.
From stdpp Require Import base list.
Import ListNotations.
Local Open Scope string_scope.
Local Open Scope list_scope.

(** ** Values *)

Abbreviation loc := nat.

(** Numbers are IEEE 754 doubles in the specification format of the
    Standard Library: signed zeros, infinities, one NaN and finite values. *)
Inductive value : Type :=
| VUndefined
| VNull
| VBool (b : bool)
| VNumber (n : spec_float)
| VString (s : string)
| VRef (l : loc).

(** The double nearest to an integer literal. *)
Definition num (z : Z) : value := VNumber (binary_normalize 53 1024 z 0 false).

Definition NaN : value := VNumber S754_nan.
Definition neg_zero : value := VNumber (S754_zero true).

(** [Object.is] on numbers (SameValue): NaN is equal to itself and the two
    zeros are told apart. *)
Definition same_value_number (x y : spec_float) : bool :=
  match x, y with
  | S754_nan, S754_nan => true
  | S754_zero s1, S754_zero s2 => Bool.eqb s1 s2
  | _, _ => SFeqb x y
  end.

(** [Object.is(a, b)]. *)
Definition Object_is (a b : value) : bool :=
  match a, b with
  | VUndefined, VUndefined => true
  | VNull, VNull => true
  | VBool x, VBool y => Bool.eqb x y
  | VNumber x, VNumber y => same_value_number x y
  | VString x, VString y => String.eqb x y
  | VRef x, VRef y => Nat.eqb x y
  | _, _ => false
  end.

(** [a === b]: as [Object.is] but with IEEE equality on numbers. *)
Definition strict_eq (a b : value) : bool :=
  match a, b with
  | VNumber x, VNumber y => SFeqb x y
  | _, _ => Object_is a b
  end.

(** ToBoolean. *)
Definition truthy (v : value) : bool :=
  match v with
  | VUndefined | VNull => false
  | VBool b => b
  | VNumber (S754_zero _) | VNumber S754_nan => false
  | VNumber _ => true
  | VString s => negb (String.eqb s "")
  | VRef _ => true
  end.

Definition nullish (v : value) : bool :=
  match v with VUndefined | VNull => true | _ => false end.

(** [a ?? b]. *)
Definition coalesce (a b : value) : value := if nullish a then b else a.

(** ** Objects and the heap *)

(** Function objects: functions of the application (components, effect
    callbacks, event handlers), named by a number, and the [setState]
    closures made by [useState], which capture [currIndex]. *)
Inductive func : Type :=
| FUser (id : nat)
| FSetter (currIndex : nat).

Inductive dom_kind : Type :=
| DElement (tag : value)      (* document.createElement(tag) *)
| DText.                      (* document.createTextNode('') *)

Record dom_node : Type := mkDom {
  dom_kind_of : dom_kind;
  dom_props : list (string * value);       (* properties assigned as dom[name] = v *)
  dom_listeners : list (string * value);   (* (event type, handler) *)
  dom_children : list value
}.

Inductive object : Type :=
| OObject (props : list (string * value))  (* own properties in insertion order *)
| OArray (elems : list value)
| OFunction (f : func)
| ODom (n : dom_node).

Abbreviation heap_t := (list object).

(** ** Engine state *)

Inductive exn : Type :=
| TypeError (msg : string)
| HierarchyRequestError.

(** What the engine does to its surroundings, in order.  [EvUseState] and
    [EvUseEffect] are ghost records of hook calls, as is the cursor position
    in [EvEffect]: they are written and never read by the engine.
    [EvUseEffect] keeps the entries the dependency array had when the hook
    was called. *)
Inductive event : Type :=
| EvRender                                             (* the body of render is entered *)
| EvEffect (position : nat) (callback : value)          (* callback() in useEffect *)
| EvUseState (position : nat) (returned : value)
| EvUseEffect (position : nat) (callback depArr : value) (deps : option (list value))
| EvRemoveListener (dom : value) (type : string) (handler : value)
| EvSetProperty (dom : value) (name : string) (v : value)
| EvAddListener (dom : value) (type : string) (handler : value).

Record state : Type := mkState {
  heap : heap_t;
  hooks : list value;        (* const hooks = [] *)
  index : nat;               (* let index = 0 *)
  _component : value;        (* let _component = null *)
  _root : value;             (* let _root = null *)
  _hooks : bool;             (* let _hooks = null; true once it holds the hooks array *)
  trace : list event
}.

Definition initial_state : state :=
  mkState [] [] 0 VNull VNull false [].

Definition set_heap (h : heap_t) (s : state) : state :=
  mkState h (hooks s) (index s) (_component s) (_root s) (_hooks s) (trace s).
Definition set_hooks (hs : list value) (s : state) : state :=
  mkState (heap s) hs (index s) (_component s) (_root s) (_hooks s) (trace s).
Definition set_index (i : nat) (s : state) : state :=
  mkState (heap s) (hooks s) i (_component s) (_root s) (_hooks s) (trace s).
Definition set_context (c r : value) (s : state) : state :=
  mkState (heap s) (hooks s) (index s) c r true (trace s).
Definition add_event (e : event) (s : state) : state :=
  mkState (heap s) (hooks s) (index s) (_component s) (_root s) (_hooks s) (trace s ++ [e]).

(** ** The monad: state, exceptions and fuel *)

Inductive outcome (A : Type) : Type :=
| Ok (a : A)
| Throw (e : exn)
| OutOfFuel.
Arguments Ok {A} a.
Arguments Throw {A} e.
Arguments OutOfFuel {A}.

(** An exception does not roll the state back: what was written before the
    throw stays written. *)
Definition M (A : Type) : Type := state -> outcome A * state.

Definition ret {A} (a : A) : M A := fun s => (Ok a, s).

Definition bind {A B} (m : M A) (k : A -> M B) : M B :=
  fun s =>
    match m s with
    | (Ok a, s') => k a s'
    | (Throw e, s') => (Throw e, s')
    | (OutOfFuel, s') => (OutOfFuel, s')
    end.

Declare Scope engine_scope.
Delimit Scope engine_scope with engine.
Notation "x <- m ;; k" := (bind m (fun x => k))
  (at level 100, m at next level, right associativity) : engine_scope.
Notation "m ;; k" := (bind m (fun _ => k))
  (at level 100, right associativity) : engine_scope.
Local Open Scope engine_scope.

Definition throw {A} (e : exn) : M A := fun s => (Throw e, s).
Definition out_of_fuel {A} : M A := fun s => (OutOfFuel, s).
Definition get_state : M state := fun s => (Ok s, s).
Definition modify (f : state -> state) : M unit := fun s => (Ok tt, f s).
Definition log (e : event) : M unit := modify (add_event e).

Definition type_error {A} (msg : string) : M A := throw (TypeError msg).

(** ** Reading and writing the heap *)

(** The canonical decimal name of an array index: [arr[1]] is [arr["1"]]. *)
Definition index_key (i : nat) : string := NilZero.string_of_uint (Nat.to_uint i).

Fixpoint assoc (key : string) (ps : list (string * value)) : option value :=
  match ps with
  | [] => None
  | (k, v) :: ps' => if String.eqb k key then Some v else assoc key ps'
  end.

(** [obj[key] = v] on the property list of a plain object: an existing key
    keeps its place, a new key goes last. *)
Fixpoint assoc_set (key : string) (v : value) (ps : list (string * value))
  : list (string * value) :=
  match ps with
  | [] => [(key, v)]
  | (k, w) :: ps' =>
      if String.eqb k key then (k, v) :: ps' else (k, w) :: assoc_set key v ps'
  end.

Definition indexed (es : list value) : list (string * value) :=
  imap (fun i x => (index_key i, x)) es.

Definition chars (s : string) : list value :=
  List.map (fun c => VString (String c EmptyString)) (list_ascii_of_string s).

(** The own enumerable string-keyed properties of a value, in the order of
    [Object.keys]: those of a plain object, the indices of an array or of a
    string.  A property name of a plain object that looks like an array
    index is not moved to the front here. *)
Definition own_props (h : heap_t) (v : value) : list (string * value) :=
  match v with
  | VRef l =>
      match h !! l with
      | Some (OObject ps) => ps
      | Some (OArray es) => indexed es
      | _ => []
      end
  | VString s => indexed (chars s)
  | _ => []
  end.

Definition first_child (n : dom_node) : value :=
  match dom_children n with
  | [] => VNull
  | c :: _ => c
  end.

Definition length_value (n : nat) : value := num (Z.of_nat n).

(** [v[key]] for a [v] that is neither [null] nor [undefined]. *)
Definition prop_get (h : heap_t) (v : value) (key : string) : value :=
  match v with
  | VRef l =>
      match h !! l with
      | Some (OObject ps) => default VUndefined (assoc key ps)
      | Some (OArray es) =>
          if String.eqb key "length" then length_value (List.length es)
          else default VUndefined (assoc key (indexed es))
      | Some (ODom n) =>
          if String.eqb key "firstChild" then first_child n
          else default VUndefined (assoc key (dom_props n))
      | _ => VUndefined
      end
  | VString s =>
      if String.eqb key "length" then length_value (String.length s)
      else default VUndefined (assoc key (indexed (chars s)))
  | _ => VUndefined
  end.

(** [v.key]: a TypeError on [null] and [undefined]. *)
Definition get_prop (v : value) (key : string) : M value :=
  fun s =>
    if nullish v then (Throw (TypeError "cannot read properties of null or undefined"), s)
    else (Ok (prop_get (heap s) v key), s).

(** [v?.key]. *)
Definition get_prop_opt (v : value) (key : string) : M value :=
  if nullish v then ret VUndefined else get_prop v key.

(** [key in v]: own keys only; a TypeError when [v] is not an object. *)
Definition has_key (key : string) (v : value) : M bool :=
  fun s =>
    match v with
    | VRef l =>
        match heap s !! l with
        | Some (OObject ps) => (Ok (bool_decide (is_Some (assoc key ps))), s)
        | Some (OArray es) =>
            (Ok (String.eqb key "length" || bool_decide (is_Some (assoc key (indexed es)))), s)
        | Some (ODom n) => (Ok (bool_decide (is_Some (assoc key (dom_props n)))), s)
        | _ => (Ok false, s)
        end
    | _ => (Throw (TypeError "cannot use 'in' operator on a primitive"), s)
    end.

(** [Object.keys(v)]. *)
Definition Object_keys (v : value) : M (list string) :=
  fun s =>
    if nullish v then (Throw (TypeError "cannot convert undefined or null to object"), s)
    else (Ok (List.map fst (own_props (heap s) v)), s).

Definition alloc (o : object) : M value :=
  fun s => (Ok (VRef (List.length (heap s))), set_heap (heap s ++ [o]) s).

(** [typeof v]. *)
Definition typeof (h : heap_t) (v : value) : string :=
  match v with
  | VUndefined => "undefined"
  | VNull => "object"
  | VBool _ => "boolean"
  | VNumber _ => "number"
  | VString _ => "string"
  | VRef l => match h !! l with Some (OFunction _) => "function" | _ => "object" end
  end.

Definition type_of (v : value) : M string := fun s => (Ok (typeof (heap s) v), s).

(** [Array.isArray(v)]. *)
Definition isArray (v : value) : M bool :=
  fun s =>
    (Ok match v with
        | VRef l => match heap s !! l with Some (OArray _) => true | _ => false end
        | _ => false
        end, s).

(** The elements of [v] when it is an array: [v.forEach], [v.map] and
    [v.some] are TypeErrors on anything else. *)
Definition array_elems (v : value) : M (list value) :=
  fun s =>
    match v with
    | VRef l =>
        match heap s !! l with
        | Some (OArray es) => (Ok es, s)
        | _ => (Throw (TypeError "not a function"), s)
        end
    | _ => (Throw (TypeError "not a function"), s)
    end.

(** [arr[i] = v] on a list: in range it replaces, past the end it extends
    the array, the entries in between reading as [undefined]. *)
Definition array_set (i : nat) (v : value) (l : list value) : list value :=
  if Nat.ltb i (List.length l) then <[i:=v]> l
  else l ++ replicate (i - List.length l) VUndefined ++ [v].

Definition array_get (l : list value) (i : nat) : value := default VUndefined (l !! i).

(** [target[i] = v].  The module is strict code: writing to a primitive is a
    TypeError.  A write to a function or display object adds a property the
    engine never reads and is left out. *)
Definition set_elem (target : value) (i : nat) (v : value) : M unit :=
  fun s =>
    match target with
    | VRef l =>
        match heap s !! l with
        | Some (OArray es) => (Ok tt, set_heap (<[l := OArray (array_set i v es)]> (heap s)) s)
        | Some (OObject ps) =>
            (Ok tt, set_heap (<[l := OObject (assoc_set (index_key i) v ps)]> (heap s)) s)
        | _ => (Ok tt, s)
        end
    | _ => (Throw (TypeError "cannot set properties of a primitive"), s)
    end.

(** ** Loops *)

Fixpoint mapM {A B} (f : A -> M B) (l : list A) : M (list B) :=
  match l with
  | [] => ret []
  | x :: l' => y <- f x ;; ys <- mapM f l' ;; ret (y :: ys)
  end.

Fixpoint filterM {A} (p : A -> M bool) (l : list A) : M (list A) :=
  match l with
  | [] => ret []
  | x :: l' => b <- p x ;; r <- filterM p l' ;; ret (if b then x :: r else r)
  end.

Fixpoint forEach {A} (l : list A) (f : A -> M unit) : M unit :=
  match l with
  | [] => ret tt
  | x :: l' => f x ;; forEach l' f
  end.

(** The element an array method finds at index [i] when it gets there: the
    methods fix the length when they start and read each entry when they
    reach it. *)
Definition live_elem (arr : value) (i : nat) : M (option value) :=
  fun s =>
    (Ok match arr with
        | VRef l => match heap s !! l with Some (OArray es) => es !! i | _ => None end
        | _ => None
        end, s).

(** [arr.forEach((x, i) => f x i)]. *)
Definition array_forEach (arr : value) (f : value -> nat -> M unit) : M unit :=
  es <- array_elems arr ;;
  forEach (seq 0 (List.length es))
    (fun i => e <- live_elem arr i ;;
              match e with Some x => f x i | None => ret tt end).

(** [arr.map(f)]: a new array. *)
Definition array_map (arr : value) (f : value -> M value) : M value :=
  es <- array_elems arr ;;
  rs <- mapM (fun i => e <- live_elem arr i ;;
                       match e with Some x => f x | None => ret VUndefined end)
          (seq 0 (List.length es)) ;;
  alloc (OArray rs).

(** ** init.js: the hook store and the node builder *)

(** [useState(initialValue)].  The pair stands for the two-element array the
    function returns, which every caller takes apart at once; the setter is
    a new closure over [currIndex]. *)
Definition useState (initialValue : value) : M (value * value) :=
  s <- get_state ;;
  let state := coalesce (array_get (hooks s) (index s)) initialValue in
  let currIndex := index s in
  setState <- alloc (OFunction (FSetter currIndex)) ;;
  log (EvUseState currIndex state) ;;
  modify (fun s => set_index (S (index s)) s) ;;
  ret (state, setState).

(** [callback()].  What an effect callback does is code of the application,
    outside the engine: the call is recorded.  A value that is not a
    function cannot be called. *)
Definition call_callback (callback : value) : M unit :=
  t <- type_of callback ;;
  if String.eqb t "function" then s <- get_state ;; log (EvEffect (index s) callback)
  else type_error "callback is not a function".

Definition elems_of (h : heap_t) (v : value) : option (list value) :=
  match v with
  | VRef l => match h !! l with Some (OArray es) => Some es | _ => None end
  | _ => None
  end.

(** [depArr.some((dep, i) => !Object.is(dep, oldDeps[i]))]. *)
Definition some_changed (depArr oldDeps : value) : M bool :=
  deps <- array_elems depArr ;;
  s <- get_state ;;
  ret (existsb (fun p => negb (Object_is (snd p) (prop_get (heap s) oldDeps (index_key (fst p)))))
         (imap pair deps)).

(** [useEffect(callback, depArr)]. *)
Definition useEffect (callback depArr : value) : M unit :=
  s <- get_state ;;
  let oldDeps := array_get (hooks s) (index s) in
  log (EvUseEffect (index s) callback depArr (elems_of (heap s) depArr)) ;;
  shouldRunEffect <- (if truthy oldDeps then some_changed depArr oldDeps else ret true) ;;
  (if shouldRunEffect : bool then call_callback callback else ret tt) ;;
  modify (fun s => set_hooks (array_set (index s) depArr (hooks s)) s) ;;
  modify (fun s => set_index (S (index s)) s).

(** The object literal [{type: 'TEXT_NODE', props: {nodeValue: child, children: []}}]. *)
Definition text_node (child : value) : M value :=
  kids <- alloc (OArray []) ;;
  props <- alloc (OObject [("nodeValue", child); ("children", kids)]) ;;
  alloc (OObject [("type", VString "TEXT_NODE"); ("props", props)]).

Definition normalize_child (child : value) : M value :=
  t <- type_of child ;;
  if String.eqb t "object" then ret child else text_node child.

(** [createElement(type, props, ...children)]. *)
Definition createElement (type props : value) (children : list value) : M value :=
  normalizedChildren <- mapM normalize_child children ;;
  kids <- alloc (OArray normalizedChildren) ;;
  s <- get_state ;;
  p <- alloc (OObject (assoc_set "children" kids (own_props (heap s) props))) ;;
  alloc (OObject [("type", type); ("props", p)]).

(** ** utils.js *)

Definition isEvent (key : string) : bool := String.prefix "on" key.

Definition isNew (prev next : value) (key : string) : M bool :=
  a <- get_prop prev key ;;
  b <- get_prop next key ;;
  ret (negb (strict_eq a b)).

Definition isProperty (key : string) : bool :=
  negb (String.eqb key "children") && negb (isEvent key).

Definition isGone (_prev next : value) (key : string) : M bool :=
  b <- has_key key next ;;
  ret (negb b).

(** ** The display surface *)

Definition to_lower (c : ascii) : ascii :=
  let n := nat_of_ascii c in
  if Nat.leb 65 n && Nat.leb n 90 then ascii_of_nat (n + 32) else c.

(** [s.toLowerCase()], on the ASCII letters. *)
Fixpoint toLowerCase (s : string) : string :=
  match s with
  | EmptyString => EmptyString
  | String c r => String (to_lower c) (toLowerCase r)
  end.

(** [name.toLowerCase().substring(2)]. *)
Definition eventType (name : string) : string :=
  let l := toLowerCase name in
  String.substring 2 (String.length l - 2) l.

Definition document_createElement (tag : value) : M value :=
  alloc (ODom (mkDom (DElement tag) [] [] [])).

Definition document_createTextNode : M value :=
  alloc (ODom (mkDom DText [] [] [])).

(** The methods and properties below exist on display nodes only. *)
Definition update_dom (dom : value) (f : dom_node -> outcome dom_node) : M unit :=
  fun s =>
    match dom with
    | VRef l =>
        match heap s !! l with
        | Some (ODom n) =>
            match f n with
            | Ok n' => (Ok tt, set_heap (<[l := ODom n']> (heap s)) s)
            | Throw e => (Throw e, s)
            | OutOfFuel => (OutOfFuel, s)
            end
        | _ => (Throw (TypeError "not a display node"), s)
        end
    | _ => (Throw (TypeError "not a display node"), s)
    end.

Definition same_listener (type : string) (handler : value) (p : string * value) : bool :=
  String.eqb (fst p) type && Object_is (snd p) handler.

(** [dom.removeEventListener(type, handler)]. *)
Definition removeEventListener (dom : value) (type : string) (handler : value) : M unit :=
  log (EvRemoveListener dom type handler) ;;
  update_dom dom (fun n =>
    Ok (mkDom (dom_kind_of n) (dom_props n)
          (List.filter (fun p => negb (same_listener type handler p)) (dom_listeners n))
          (dom_children n))).

(** [dom.addEventListener(type, handler)]: a listener already there is not
    added twice. *)
Definition addEventListener (dom : value) (type : string) (handler : value) : M unit :=
  log (EvAddListener dom type handler) ;;
  update_dom dom (fun n =>
    Ok (mkDom (dom_kind_of n) (dom_props n)
          (if existsb (same_listener type handler) (dom_listeners n) then dom_listeners n
           else dom_listeners n ++ [(type, handler)])
          (dom_children n))).

(** [dom[name] = v]. *)
Definition set_property (dom : value) (name : string) (v : value) : M unit :=
  log (EvSetProperty dom name v) ;;
  update_dom dom (fun n =>
    Ok (mkDom (dom_kind_of n) (assoc_set name v (dom_props n)) (dom_listeners n)
          (dom_children n))).

(** [parent.appendChild(child)]: a text node takes no children. *)
Definition appendChild (parent child : value) : M unit :=
  update_dom parent (fun n =>
    match dom_kind_of n with
    | DText => Throw HierarchyRequestError
    | DElement _ =>
        Ok (mkDom (dom_kind_of n) (dom_props n) (dom_listeners n) (dom_children n ++ [child]))
    end).

(** [while (root.firstChild) root.removeChild(root.firstChild)]: on a display
    node the loop ends with no child left; another object has no
    [removeChild] to call. *)
Definition remove_children (root : value) : M unit :=
  first <- get_prop root "firstChild" ;;
  if truthy first then
    update_dom root (fun n =>
      Ok (mkDom (dom_kind_of n) (dom_props n) (dom_listeners n) []))
  else ret tt.

(** ** render.js *)

(** [updateDom(dom, prevProps, nextProps)]. *)
Definition updateDom (dom prevProps nextProps : value) : M unit :=
  prevKeys <- Object_keys prevProps ;;
  removed <- filterM (fun key =>
               present <- has_key key nextProps ;;
               if negb present then ret true else isNew prevProps nextProps key)
             (List.filter isEvent prevKeys) ;;
  forEach removed (fun name =>
    handler <- get_prop prevProps name ;;
    removeEventListener dom (eventType name) handler) ;;
  prevKeys <- Object_keys prevProps ;;
  gone <- filterM (isGone prevProps nextProps) (List.filter isProperty prevKeys) ;;
  forEach gone (fun name => set_property dom name (VString "")) ;;
  nextKeys <- Object_keys nextProps ;;
  changed <- filterM (isNew prevProps nextProps) (List.filter isProperty nextKeys) ;;
  forEach changed (fun name =>
    v <- get_prop nextProps name ;;
    set_property dom name v) ;;
  nextKeys <- Object_keys nextProps ;;
  added <- filterM (isNew prevProps nextProps) (List.filter isEvent nextKeys) ;;
  forEach added (fun name =>
    handler <- get_prop nextProps name ;;
    addEventListener dom (eventType name) handler).

Section Engine.

(** The functions of the application: what a function object does when
    the engine calls it during a render with the given arguments.
    Components are such functions; their bodies call [useState],
    [useEffect] and [createElement].  A [setState] closure called in that
    position (a node whose type is a setter) enters [render] again; that
    too is left to this parameter. *)
Variable app : func -> list value -> M value.

(** [f(...args)]. *)
Definition call (f : value) (args : list value) : M value :=
  s <- get_state ;;
  match f with
  | VRef l =>
      match heap s !! l with
      | Some (OFunction fn) => app fn args
      | _ => type_error "not a function"
      end
  | _ => type_error "not a function"
  end.

(** [reconcile(component, root)]. *)
Fixpoint reconcile (fuel : nat) (component root : value) : M value :=
  match fuel with
  | O => out_of_fuel
  | S fuel =>
      type <- get_prop component "type" ;;
      is_array <- isArray component ;;
      if is_array : bool then
        array_map component (fun childComponent => reconcile fuel childComponent root)
      else
        t <- type_of type ;;
        comp <- (if String.eqb t "string" then ret component else call type []) ;;
        props <- get_prop_opt comp "props" ;;
        children <- (if truthy props then get_prop_opt props "children" else ret props) ;;
        (if truthy children then
           props <- get_prop comp "props" ;;
           children <- get_prop props "children" ;;
           array_forEach children (fun child i =>
             child_type <- get_prop child "type" ;;
             ct <- type_of child_type ;;
             if negb (String.eqb ct "string") then
               props <- get_prop comp "props" ;;
               target <- get_prop props "children" ;;
               props <- get_prop comp "props" ;;
               children <- get_prop props "children" ;;
               arg <- get_prop children (index_key i) ;;
               resolved <- reconcile fuel arg root ;;
               set_elem target i resolved
             else ret tt)
         else ret tt) ;;
        ret comp
  end.

(** [createDom(fiber)]. *)
Fixpoint createDom (fuel : nat) (fiber : value) : M value :=
  match fuel with
  | O => out_of_fuel
  | S fuel =>
      if strict_eq fiber VNull then document_createElement (VString "div")
      else
        type <- get_prop fiber "type" ;;
        t <- type_of type ;;
        if String.eqb t "function" then
          type <- get_prop fiber "type" ;;
          props <- get_prop fiber "props" ;;
          childElement <- call type [props] ;;
          createDom fuel childElement
        else
          type <- get_prop_opt fiber "type" ;;
          dom <- (if strict_eq type (VString "TEXT_NODE") then document_createTextNode
                  else type <- get_prop_opt fiber "type" ;; document_createElement type) ;;
          props <- get_prop_opt fiber "props" ;;
          props <- (if nullish props then alloc (OObject []) else ret props) ;;
          empty <- alloc (OObject []) ;;
          updateDom dom empty props ;;
          children <- get_prop props "children" ;;
          (if truthy children then
             children <- get_prop props "children" ;;
             array_forEach children (fun element _ =>
               is_array <- isArray element ;;
               if is_array : bool then
                 array_forEach element (fun child _ =>
                   d <- createDom fuel child ;;
                   appendChild dom d)
               else
                 d <- createDom fuel element ;;
                 appendChild dom d)
           else ret tt) ;;
          ret dom
  end.

(** [render(hooks)(component = _component, root = _root)].  A parameter is
    given its default when the argument is [undefined].  An object that is
    not a display node has no [appendChild]. *)
Definition render (fuel : nat) (component root : value) : M unit :=
  s <- get_state ;;
  let component := if strict_eq component VUndefined then _component s else component in
  let root := if strict_eq root VUndefined then _root s else root in
  log EvRender ;;
  remove_children root ;;
  rootComponent <- reconcile fuel component root ;;
  modify (set_context component root) ;;
  dom <- createDom fuel rootComponent ;;
  appendChild root dom.

(** The closure [setState] made by [useState] at cursor value [currIndex]. *)
Definition setState (fuel : nat) (currIndex : nat) (newVal : value) : M unit :=
  s <- get_state ;;
  let hasChanged := negb (Object_is (array_get (hooks s) currIndex) newVal) in
  if hasChanged then
    modify (fun s => set_hooks (array_set currIndex newVal (hooks s)) s) ;;
    modify (set_index 0) ;;
    render fuel VUndefined VUndefined
  else ret tt.

(** A call of a setter from outside a render (an event handler, a timer):
    [setter(newVal)]. *)
Definition call_setter (fuel : nat) (setter newVal : value) : M unit :=
  s <- get_state ;;
  match setter with
  | VRef l =>
      match heap s !! l with
      | Some (OFunction (FSetter currIndex)) => setState fuel currIndex newVal
      | _ => type_error "not a setter"
      end
  | _ => type_error "not a function"
  end.

End Engine.

(** ** Calls from outside a render *)

Inductive action : Type :=
| ActRender (component root : value)       (* render(component, root) *)
| ActSet (currIndex : nat) (newVal : value). (* the setter made at [currIndex], called with [newVal] *)

Definition perform (app : func -> list value -> M value) (fuel : nat) (a : action) : M unit :=
  match a with
  | ActRender component root => render app fuel component root
  | ActSet currIndex newVal => setState app fuel currIndex newVal
  end.

(** The state after a sequence of top-level calls; each call runs to its end
    (or to its exception) before the next one starts. *)
Definition session (app : func -> list value -> M value) (fuel : nat)
  (acts : list action) (s : state) : state :=
  fold_left (fun s a => snd (perform app fuel a s)) acts s.

(** ** Observations *)

Definition is_render (e : event) : bool :=
  match e with EvRender => true | _ => false end.

Definition is_effect_at (k : nat) (e : event) : bool :=
  match e with EvEffect p _ => Nat.eqb p k | _ => false end.

Definition renders (t : list event) : nat := List.length (List.filter is_render t).

Definition effect_runs (k : nat) (t : list event) : nat :=
  List.length (List.filter (is_effect_at k) t).

(** The [nodeValue] of the first child of the first child of the mount
    point: the text a one-element component shows. *)
Definition shown_text (s : state) : value :=
  let h := heap s in
  prop_get h (prop_get h (prop_get h (_root s) "firstChild") "firstChild") "nodeValue".

(** ** Components used in the scenarios *)

(** Modelled from the spec: the counter component of the scenarios (the
    application imports [./counter], which is not among the sources): one
    state hook initialised to [0], its value shown as the text of a [div]. *)
Definition Counter : M value :=
  p <- useState (num 0) ;;
  createElement (VString "div") VNull [fst p].

(** A component with one state hook and [useEffect(() => {...}, [])]: the
    arrow function and the array literal are new objects on every call. *)
Definition Ticker : M value :=
  p <- useState (num 0) ;;
  fn <- alloc (OFunction (FUser 1)) ;;
  deps <- alloc (OArray []) ;;
  useEffect fn deps ;;
  createElement (VString "div") VNull [fst p].

(** A component with no [return]. *)
Definition Nothing : M value := ret VUndefined.

(** A component without hooks. *)
Definition Static : M value := createElement (VString "span") VNull [VString "static"].

(** [FUser 0] is the component under test; the other ids are never called. *)
Definition app_of (body : M value) (f : func) (args : list value) : M value :=
  match f with
  | FUser 0 => body
  | _ => ret VUndefined
  end.

(** A fresh page: the mount point, the component function [C] and the
    element [<C />]. *)
Definition page : M (value * value) :=
  root <- document_createElement (VString "div") ;;
  C <- alloc (OFunction (FUser 0)) ;;
  element <- createElement C VNull [] ;;
  ret (element, root).

Definition page_state : state := snd (page initial_state).
Definition page_root : value := VRef 0.
Definition page_element : value := VRef 4.

(** [render(<C />, root)] on a fresh page. *)
Definition mount (body : M value) (fuel : nat) : M unit :=
  p <- page ;;
  render (app_of body) fuel (fst p) (snd p).

Definition mounted (body : M value) (fuel : nat) : state :=
  snd (mount body fuel initial_state).

(** ** Predicates used in the statements *)

(** [J] holds after [m] whenever it held before, whatever the outcome. *)
Definition stable (J : state -> Prop) {A} (m : M A) : Prop :=
  forall s, J s -> J (snd (m s)).

Definition display_event (e : event) : bool :=
  match e with
  | EvRemoveListener _ _ _ | EvSetProperty _ _ _ | EvAddListener _ _ _ => true
  | _ => false
  end.

(** A property of the state that does not look at the heap, at the render
    context or at the display operations in the trace. *)
Record hook_property (J : state -> Prop) : Prop := {
  hp_heap : forall h s, J s -> J (set_heap h s);
  hp_context : forall c r s, J s -> J (set_context c r s);
  hp_display : forall e s, display_event e = true -> J s -> J (add_event e s)
}.

(** A property of the state kept by the steps the engine takes on its own
    account, the writes into arrays apart: allocation, the operations on
    display nodes, and the recording of the render context. *)
Record engine_stable (J : state -> Prop) : Prop := {
  es_alloc : forall o, stable J (alloc o);
  es_update_dom : forall dom f, stable J (update_dom dom f);
  es_display : forall e, display_event e = true -> stable J (log e);
  es_context : forall c r, stable J (modify (set_context c r))
}.

(** Code of the application that reaches the hook store and the trace only
    through the public surface: [useState], [useEffect], [createElement],
    and otherwise reads the state and works on the heap. *)
Inductive api_code : forall {A : Type}, M A -> Prop :=
| api_ret {A} (a : A) : api_code (ret a)
| api_bind {A B} (m : M A) (k : A -> M B) :
    api_code m -> (forall a, api_code (k a)) -> api_code (bind m k)
| api_throw {A} (e : exn) : api_code (@throw A e)
| api_get_state : api_code get_state
| api_alloc (o : object) : api_code (alloc o)
| api_heap (f : heap_t -> heap_t) : api_code (modify (fun s => set_heap (f (heap s)) s))
| api_useState (initialValue : value) : api_code (useState initialValue)
| api_useEffect (callback depArr : value) : api_code (useEffect callback depArr)
| api_createElement (type props : value) (children : list value) :
    api_code (createElement type props children).

Definition api_app (app : func -> list value -> M value) : Prop :=
  forall fn args, api_code (app fn args).

Definition result_of {A} (r : outcome A * state) : option A :=
  match fst r with Ok a => Some a | _ => None end.

(** The test of [useEffect] on two dependency lists: some entry of the new
    list is not the same value as the entry of the old list at its index
    ([undefined] past the end of the old list). *)
Definition deps_changed (d0 d1 : list value) : bool :=
  existsb (fun p => negb (Object_is (snd p) (array_get d0 (fst p)))) (imap pair d1).

(** The counter after [render(<Counter />, root)]. *)
Definition counter_mounted : state := mounted Counter 3.

(** The mounted counter after its setter was called with the given values,
    one call after the other. *)
Definition counter_after (newVals : list value) : state :=
  session (app_of Counter) 3 (List.map (ActSet 0) newVals) counter_mounted.

(** A component whose dependency list shrinks: [useEffect(fn, count === 0 ?
    [1, 2] : [1])] after one state hook. *)
Definition Shrinking : M value :=
  p <- useState (num 0) ;;
  fn <- alloc (OFunction (FUser 1)) ;;
  deps <- alloc (OArray (if strict_eq (fst p) (num 0) then [num 1; num 2] else [num 1])) ;;
  useEffect fn deps ;;
  createElement (VString "div") VNull [].

Definition shrinking_mounted : state := mounted Shrinking 3.

Definition shrinking_rerendered : state :=
  session (app_of Shrinking) 3 [ActSet 0 (num 1)] shrinking_mounted.

(** A callable callback and the array [[1]] in an otherwise empty state. *)
Definition one_dep_state : state :=
  set_heap [OFunction (FUser 1); OArray [num 1]] initial_state.

(** The invariant of a render started by [setState] at slot [k] with a value
    [v] that is not [null] or [undefined]: since the trace was [t0] no render
    was entered, every state hook called at position [k] returned [v], and
    slot [k] still holds [v] as long as the cursor has not passed it. *)
Definition reads_new_value (k : nat) (v : value) (t0 : list event) (s : state) : Prop :=
  exists t,
    trace s = t0 ++ t
    /\ renders t = 0
    /\ (nullish v = false ->
        (forall x, In (EvUseState k x) t -> x = v)
        /\ (index s <= k -> array_get (hooks s) k = v)).

(** The effect hook was called with an empty array whenever it was called at
    position [k]. *)
Definition empty_list_at (k : nat) (e : event) : bool :=
  match e with
  | EvUseEffect p _ _ deps =>
      if Nat.eqb p k then match deps with Some [] => true | _ => false end else true
  | _ => true
  end.

(** The invariant of an effect hook with an empty list at position [k]: its
    callback has run once if slot [k] holds a list and not at all before. *)
Definition runs_once (k : nat) (s : state) : Prop :=
  forallb (empty_list_at k) (trace s) = true ->
  effect_runs k (trace s) = (if truthy (array_get (hooks s) k) then 1 else 0).

(** The ticker: mounted, then rendered five more times by state changes. *)
Definition ticker_acts : list action :=
  ActRender page_element page_root
  :: List.map (fun z => ActSet 0 (num z)) [1; 2; 3; 4; 5]%Z.

(** A value that does not point outside the heap. *)
Definition valid_ref (h : heap_t) (v : value) : Prop :=
  match v with VRef l => l < List.length h | _ => True end.

(** [c] is a text node for [child]:
    [{type: 'TEXT_NODE', props: {nodeValue: child, children: []}}]. *)
Definition text_node_at (h : heap_t) (child c : value) : Prop :=
  exists l lp lk,
    c = VRef l
    /\ h !! l = Some (OObject [("type", VString "TEXT_NODE"); ("props", VRef lp)])
    /\ h !! lp = Some (OObject [("nodeValue", child); ("children", VRef lk)])
    /\ h !! lk = Some (OArray []).

(** [node] is [{type, props: {...fields, children: kids}}]. *)
Definition element_at (h : heap_t) (node type : value)
  (fields : list (string * value)) (kids : list value) : Prop :=
  exists l lp lk,
    node = VRef l
    /\ h !! l = Some (OObject [("type", type); ("props", VRef lp)])
    /\ h !! lp = Some (OObject (assoc_set "children" (VRef lk) fields))
    /\ h !! lk = Some (OArray kids).

(** The state in which [buildNode('div', {className: 'x'}, 'hello')] is
    evaluated: the object literal is at location 0. *)
Definition hello_state : state :=
  set_heap [OObject [("className", VString "x")]] initial_state.

(** [obj[key]] and [key in obj] on the property list of a plain object. *)
Definition lookup_field (key : string) (fields : list (string * value)) : value :=
  default VUndefined (assoc key fields).

Definition in_fields (key : string) (fields : list (string * value)) : bool :=
  bool_decide (is_Some (assoc key fields)).

(** During [updateDom] the two property objects stay as they are and the
    display node stays a display node. *)
Definition sync_shape (ld lp ln : loc) (prevProps nextProps : list (string * value))
  (s : state) : Prop :=
  heap s !! lp = Some (OObject prevProps)
  /\ heap s !! ln = Some (OObject nextProps)
  /\ exists n, heap s !! ld = Some (ODom n).

(** A display node at 0 with a listener and two properties, the handlers at
    1 and 2, the previous property object at 3 and the next one at 4. *)
Definition sync_state : state :=
  set_heap
    [ODom (mkDom (DElement (VString "button"))
             [("title", VString "a"); ("id", VString "x")] [("click", VRef 1)] []);
     OFunction (FUser 1); OFunction (FUser 2);
     OObject [("onClick", VRef 1); ("title", VString "a"); ("id", VString "x");
              ("children", VRef 5)];
     OObject [("onClick", VRef 2); ("id", VString "y"); ("className", VString "c");
              ("children", VRef 5)];
     OArray []]
    initial_state.

(** What reconciliation may do to the objects that exist: an array stays an
    array, its entries open to change; every other object stays as it is. *)
Definition frame_strict (h h' : heap_t) : Prop :=
  forall l o, h !! l = Some o ->
    match o with
    | OArray _ => exists es, h' !! l = Some (OArray es)
    | _ => h' !! l = Some o
    end.

(** What a render may do to them: in addition a display node stays a
    display node, its content open to change. *)
Definition frame_nodes (h h' : heap_t) : Prop :=
  forall l o, h !! l = Some o ->
    match o with
    | OArray _ => exists es, h' !! l = Some (OArray es)
    | ODom _ => exists n, h' !! l = Some (ODom n)
    | _ => h' !! l = Some o
    end.

(** [<div><C /></div>], built by two calls of the builder: the component
    function is at location 0, the element [<C />] at 3, the children array
    of the [div] at 4 and the [div] node at 6. *)
Definition nested_page : M value :=
  C <- alloc (OFunction (FUser 0)) ;;
  child <- createElement C VNull [] ;;
  createElement (VString "div") VNull [child].

Definition nested_state : state := snd (nested_page initial_state).

Definition nested_reconciled : state :=
  snd (reconcile (app_of Static) 3 (VRef 6) VNull nested_state).

(** [n] renders in a row that reach [useEffect(callback, depArr)] at cursor
    position [k]. *)
Fixpoint effect_passes (callback depArr : value) (k n : nat) (s : state) : state :=
  match n with
  | O => s
  | S n => effect_passes callback depArr k n (snd (useEffect callback depArr (set_index k s)))
  end.

Definition effect_call_at (j : nat) (e : event) : bool :=
  match e with EvUseEffect p _ _ _ => Nat.eqb p j | _ => false end.

(** Since the trace was [t0] and the slots were [hs0], a slot changed only
    if the effect hook was called at its position. *)
Definition slots_kept (hs0 : list value) (t0 : list event) (s : state) : Prop :=
  exists t,
    trace s = t0 ++ t
    /\ forall j, existsb (effect_call_at j) t = false ->
                 array_get (hooks s) j = array_get hs0 j.

(** A callable callback at location 0 in an otherwise empty state. *)
Definition callback_state : state := set_heap [OFunction (FUser 1)] initial_state.

(** A stored dependency list [[1]] at slot 0 and a callable callback at
    location 1. *)
Definition stored_list_state : state :=
  set_hooks [VRef 0] (set_heap [OArray [num 1]; OFunction (FUser 1)] initial_state).

(** A child that the loop of [reconcile] leaves alone: it can be read and
    its kind is a string. *)
Definition host_child (h : heap_t) (kid : value) : Prop :=
  nullish kid = false /\ typeof h (prop_get h kid "type") = "string".

(** A node whose kind is a string and whose [props.children] is the array at
    [la]. *)
Definition host_element (h : heap_t) (comp : value) (la : loc) : Prop :=
  nullish comp = false
  /\ elems_of h comp = None
  /\ typeof h (prop_get h comp "type") = "string"
  /\ truthy (prop_get h comp "props") = true
  /\ prop_get h (prop_get h comp "props") "children" = VRef la.

(** The state after the component [Static] has run once: its [span] is at
    location 5, the children array of the [span] at 3. *)
Definition static_state : state := snd (Static initial_state).

(** A node whose kind is the number [7]: [{type: 7, props: {}}]. *)
Definition odd_kind_state : state :=
  set_heap [OObject []; OObject [("type", num 7); ("props", VRef 0)]] initial_state.

(** What one display operation does to the node it is applied to. *)
Definition dom_apply (n : dom_node) (e : event) : dom_node :=
  match e with
  | EvRemoveListener _ type handler =>
      mkDom (dom_kind_of n) (dom_props n)
        (List.filter (fun p => negb (same_listener type handler p)) (dom_listeners n))
        (dom_children n)
  | EvAddListener _ type handler =>
      mkDom (dom_kind_of n) (dom_props n)
        (if existsb (same_listener type handler) (dom_listeners n) then dom_listeners n
         else dom_listeners n ++ [(type, handler)])
        (dom_children n)
  | EvSetProperty _ name v =>
      mkDom (dom_kind_of n) (assoc_set name v (dom_props n)) (dom_listeners n)
        (dom_children n)
  | _ => n
  end.

(** The display operations of [updateDom(dom, prevProps, nextProps)] on two
    plain objects with the given properties, in the order they are made. *)
Definition sync_ops (dom : value) (prevProps nextProps : list (string * value))
  : list event :=
  let prev key := lookup_field key prevProps in
  let next key := lookup_field key nextProps in
  let absent key := negb (in_fields key nextProps) in
  let changed key := negb (strict_eq (prev key) (next key)) in
  List.map (fun key => EvRemoveListener dom (eventType key) (prev key))
    (List.filter (fun key => absent key || changed key)
       (List.filter isEvent (List.map fst prevProps)))
  ++ List.map (fun key => EvSetProperty dom key (VString ""))
       (List.filter absent (List.filter isProperty (List.map fst prevProps)))
  ++ List.map (fun key => EvSetProperty dom key (next key))
       (List.filter changed (List.filter isProperty (List.map fst nextProps)))
  ++ List.map (fun key => EvAddListener dom (eventType key) (next key))
       (List.filter changed (List.filter isEvent (List.map fst nextProps))).

(** The state after the display operations [ops] were made on the node [n]
    at [ld]. *)
Definition after_ops (ld : loc) (n : dom_node) (ops : list event) (s : state) : state :=
  mkState (<[ld := ODom (fold_left dom_apply ops n)]> (heap s))
    (hooks s) (index s) (_component s) (_root s) (_hooks s) (trace s ++ ops).

(** What a display operation of [updateDom] can be: the assignment of a
    plain property, or a listener operation for the event type of an [on]
    key. *)
Definition classified_op (e : event) : Prop :=
  match e with
  | EvSetProperty _ name _ => isProperty name = true
  | EvRemoveListener _ type _ | EvAddListener _ type _ =>
      exists key, isEvent key = true /\ type = eventType key
  | _ => False
  end.

(** The display node [createDom] makes for a node of kind [type]. *)
Definition new_dom (type : value) : dom_node :=
  mkDom (if strict_eq type (VString "TEXT_NODE") then DText else DElement type) [] [] [].

(** A display node at 0 and two property objects with the same properties at
    2 and 3. *)
Definition equal_props_state : state :=
  set_heap
    [ODom (mkDom (DElement (VString "a")) [("href", VString "/")] [("click", VRef 1)] []);
     OFunction (FUser 1);
     OObject [("href", VString "/"); ("onClick", VRef 1); ("children", VRef 4)];
     OObject [("href", VString "/"); ("onClick", VRef 1); ("children", VRef 4)];
     OArray []]
    initial_state.

(** A page whose root element at 0 shows an old text node (at 4), and a node
    [{type: 'p', props: {id: 'a', children: []}}] at 3. *)
Definition leaf_page_state : state :=
  set_heap
    [ODom (mkDom (DElement (VString "div")) [] [] [VRef 4]);
     OArray [];
     OObject [("id", VString "a"); ("children", VRef 1)];
     OObject [("type", VString "p"); ("props", VRef 2)];
     ODom (mkDom DText [("nodeValue", VString "old")] [] [])]
    initial_state.

(** ** Basic facts *)

Lemma array_get_set_eq (l : list value) (i : nat) (v : value) :
  array_get (array_set i v l) i = v.
Proof.
  unfold array_get, array_set.
  destruct (Nat.ltb i (List.length l)) eqn:E.
  - apply Nat.ltb_lt in E. by rewrite list_lookup_insert_eq.
  - apply Nat.ltb_ge in E.
    rewrite lookup_app_r by lia.
    rewrite lookup_app_r by (rewrite length_replicate; lia).
    rewrite length_replicate. by replace (i - _ - _) with 0 by lia.
Qed.

Lemma array_get_set_ne (l : list value) (i j : nat) (v : value) :
  i <> j -> array_get (array_set i v l) j = array_get l j.
Proof.
  intros Hne. unfold array_get, array_set.
  destruct (Nat.ltb i (List.length l)) eqn:E.
  - by rewrite list_lookup_insert_ne.
  - apply Nat.ltb_ge in E.
    destruct (decide (j < List.length l)) as [Hj|Hj].
    + by rewrite lookup_app_l.
    + rewrite (lookup_ge_None_2 l j) by lia.
      rewrite lookup_app_r by lia.
      destruct (decide (j - List.length l < i - List.length l)) as [Hlt|Hge].
      * rewrite lookup_app_l by (rewrite length_replicate; lia).
        by rewrite lookup_replicate_2.
      * rewrite lookup_app_r by (rewrite length_replicate; lia).
        rewrite length_replicate.
        rewrite lookup_ge_None_2; [done|]. simpl. lia.
Qed.

Lemma stable_ret (J : state -> Prop) {A} (a : A) : stable J (ret a).
Proof. by intros s H. Qed.

Lemma stable_throw (J : state -> Prop) {A} (e : exn) : stable J (@throw A e).
Proof. by intros s H. Qed.

Lemma stable_type_error (J : state -> Prop) {A} (msg : string) : stable J (@type_error A msg).
Proof. by intros s H. Qed.

Lemma stable_out_of_fuel (J : state -> Prop) {A} : stable J (@out_of_fuel A).
Proof. by intros s H. Qed.

Lemma stable_bind (J : state -> Prop) {A B} (m : M A) (k : A -> M B) :
  stable J m -> (forall a, stable J (k a)) -> stable J (bind m k).
Proof.
  intros Hm Hk s H. unfold bind. specialize (Hm s H).
  destruct (m s) as [[a|e|] s1]; simpl in *; auto. by apply Hk.
Qed.

(** Computations that only look at the state. *)
Definition readonly {A} (m : M A) : Prop := forall s, snd (m s) = s.

Lemma readonly_stable (J : state -> Prop) {A} (m : M A) : readonly m -> stable J m.
Proof. intros Hr s H. by rewrite Hr. Qed.

Lemma readonly_get_state : readonly get_state.
Proof. done. Qed.

Lemma readonly_get_prop v key : readonly (get_prop v key).
Proof. intros s. unfold get_prop. by destruct (nullish v). Qed.

Lemma readonly_get_prop_opt v key : readonly (get_prop_opt v key).
Proof. intros s. unfold get_prop_opt, get_prop. by destruct (nullish v). Qed.

Lemma readonly_has_key key v : readonly (has_key key v).
Proof.
  intros s. unfold has_key. destruct v; try done.
  destruct (heap s !! l) as [[]|]; done.
Qed.

Lemma readonly_Object_keys v : readonly (Object_keys v).
Proof. intros s. unfold Object_keys. by destruct (nullish v). Qed.

Lemma readonly_type_of v : readonly (type_of v).
Proof. done. Qed.

Lemma readonly_isArray v : readonly (isArray v).
Proof. done. Qed.

Lemma readonly_array_elems v : readonly (array_elems v).
Proof.
  intros s. unfold array_elems. destruct v; try done.
  destruct (heap s !! l) as [[]|]; done.
Qed.

Lemma readonly_live_elem v i : readonly (live_elem v i).
Proof. done. Qed.

Lemma readonly_ret {A} (a : A) : readonly (ret a).
Proof. done. Qed.

Lemma readonly_bind {A B} (m : M A) (k : A -> M B) :
  readonly m -> (forall a, readonly (k a)) -> readonly (bind m k).
Proof.
  intros Hm Hk s. unfold bind. specialize (Hm s).
  destruct (m s) as [[a|e|] s1]; simpl in *; subst; try done. apply Hk.
Qed.

Lemma readonly_isNew prev next key : readonly (isNew prev next key).
Proof.
  unfold isNew. repeat (apply readonly_bind; [|intros]);
    auto using readonly_get_prop, readonly_ret.
Qed.

Lemma readonly_isGone prev next key : readonly (isGone prev next key).
Proof.
  unfold isGone. apply readonly_bind; [apply readonly_has_key|intros; apply readonly_ret].
Qed.

Lemma readonly_filterM {A} (p : A -> M bool) (l : list A) :
  (forall x, readonly (p x)) -> readonly (filterM p l).
Proof.
  intros Hp. induction l as [|x l IH]; simpl; [apply readonly_ret|].
  repeat (apply readonly_bind; [|intros]); auto using readonly_ret.
Qed.

Create HintDb stable.
Create HintDb readonly.
#[local] Hint Resolve stable_ret stable_throw stable_type_error stable_out_of_fuel : stable.
#[local] Hint Resolve readonly_get_state readonly_get_prop readonly_get_prop_opt readonly_has_key
  readonly_Object_keys readonly_type_of readonly_isArray readonly_array_elems
  readonly_live_elem readonly_isNew readonly_isGone readonly_ret : readonly.

Ltac readonly_auto :=
  repeat first
    [ solve [auto with readonly]
    | apply readonly_filterM; intro
    | apply readonly_bind; [|intro]
    | match goal with
      | |- readonly (if ?b then _ else _) => destruct b
      end ].

Ltac stable_step :=
  first
    [ solve [auto with stable]
    | solve [apply readonly_stable; readonly_auto]
    | apply stable_bind; [|intro]
    | match goal with
      | |- stable _ (if ?b then _ else _) => destruct b
      | |- stable _ (match ?x with _ => _ end) => destruct x
      end ].

Ltac stable_auto := repeat stable_step.

Lemma stable_mapM (J : state -> Prop) {A B} (f : A -> M B) (l : list A) :
  (forall x, stable J (f x)) -> stable J (mapM f l).
Proof. intros Hf. induction l; simpl; stable_auto. Qed.

Lemma stable_filterM (J : state -> Prop) {A} (p : A -> M bool) (l : list A) :
  (forall x, stable J (p x)) -> stable J (filterM p l).
Proof. intros Hp. induction l; simpl; stable_auto. Qed.

Lemma stable_forEach (J : state -> Prop) {A} (l : list A) (f : A -> M unit) :
  (forall x, stable J (f x)) -> stable J (forEach l f).
Proof. intros Hf. induction l; simpl; stable_auto. Qed.

Lemma stable_array_forEach (J : state -> Prop) arr f :
  (forall x i, stable J (f x i)) -> stable J (array_forEach arr f).
Proof.
  intros Hf. unfold array_forEach. stable_auto.
  apply stable_forEach. intros i. stable_auto.
Qed.

Lemma bind_ok {A B} (m : M A) (k : A -> M B) s a s' :
  m s = (Ok a, s') -> bind m k s = k a s'.
Proof. intros H. unfold bind. by rewrite H. Qed.

Lemma bind_throw {A B} (m : M A) (k : A -> M B) s e s' :
  m s = (Throw e, s') -> bind m k s = (Throw e, s').
Proof. intros H. unfold bind. by rewrite H. Qed.

Lemma bind_out_of_fuel {A B} (m : M A) (k : A -> M B) s s' :
  m s = (OutOfFuel, s') -> bind m k s = (OutOfFuel, s').
Proof. intros H. unfold bind. by rewrite H. Qed.

Ltac run_ok := erewrite bind_ok by (first [eassumption | reflexivity]); cbv beta.
Ltac run_throw := erewrite bind_throw by (first [eassumption | reflexivity]).

(** ** Properties kept by the engine *)

Section EngineStable.

Variable J : state -> Prop.
Hypothesis HJ : engine_stable J.

Lemma stable_alloc o : stable J (alloc o).
Proof. apply (es_alloc J HJ). Qed.

Lemma stable_update_dom dom f : stable J (update_dom dom f).
Proof. apply (es_update_dom J HJ). Qed.

Lemma stable_log_display e : display_event e = true -> stable J (log e).
Proof. apply (es_display J HJ). Qed.

Hint Resolve stable_alloc stable_update_dom : stable.

Lemma stable_removeEventListener dom type handler :
  stable J (removeEventListener dom type handler).
Proof. unfold removeEventListener. stable_auto. by apply stable_log_display. Qed.

Lemma stable_addEventListener dom type handler :
  stable J (addEventListener dom type handler).
Proof. unfold addEventListener. stable_auto. by apply stable_log_display. Qed.

Lemma stable_set_property dom name v : stable J (set_property dom name v).
Proof. unfold set_property. stable_auto. by apply stable_log_display. Qed.

Lemma stable_appendChild parent child : stable J (appendChild parent child).
Proof. unfold appendChild. stable_auto. Qed.

Lemma stable_remove_children root : stable J (remove_children root).
Proof. unfold remove_children. stable_auto. Qed.

Lemma stable_document_createElement tag : stable J (document_createElement tag).
Proof. unfold document_createElement. stable_auto. Qed.

Lemma stable_document_createTextNode : stable J document_createTextNode.
Proof. unfold document_createTextNode. stable_auto. Qed.

Hint Resolve stable_removeEventListener stable_addEventListener stable_set_property
  stable_appendChild stable_remove_children stable_document_createElement
  stable_document_createTextNode : stable.

Lemma stable_updateDom dom prev next : stable J (updateDom dom prev next).
Proof.
  unfold updateDom.
  repeat (apply stable_bind; [|intros]);
    try (apply stable_forEach; intros); stable_auto.
Qed.

Lemma stable_text_node child : stable J (text_node child).
Proof. unfold text_node. stable_auto. Qed.

Lemma stable_normalize_child child : stable J (normalize_child child).
Proof. unfold normalize_child. stable_auto; try apply stable_text_node. Qed.

Lemma stable_createElement type props children :
  stable J (createElement type props children).
Proof.
  unfold createElement. stable_auto.
  all: try (apply stable_mapM; intros; apply stable_normalize_child).
Qed.

Hint Resolve stable_updateDom stable_createElement : stable.

Lemma stable_array_map arr f :
  (forall x, stable J (f x)) -> stable J (array_map arr f).
Proof.
  intros Hf. unfold array_map. stable_auto.
  apply stable_mapM. intros i. stable_auto.
Qed.

Section App.

Variable app : func -> list value -> M value.
Hypothesis Happ : forall fn args, stable J (app fn args).

Lemma stable_call f args : stable J (call app f args).
Proof.
  unfold call. apply stable_bind; [stable_auto|]. intros s0.
  destruct f; try apply stable_type_error.
  destruct (heap s0 !! l) as [[]|]; try apply stable_type_error. apply Happ.
Qed.

(** [reconcile] also writes into arrays. *)
Lemma stable_reconcile fuel component root :
  (forall target i v, stable J (set_elem target i v)) ->
  stable J (reconcile app fuel component root).
Proof.
  intros Hset.
  revert component root. induction fuel as [|fuel IH]; intros; simpl.
  - apply stable_out_of_fuel.
  - apply stable_bind; [stable_auto|]. intros type.
    apply stable_bind; [stable_auto|]. intros [|].
    + apply stable_array_map. intros. apply IH.
    + apply stable_bind; [stable_auto|]. intros t.
      apply stable_bind.
      { destruct (String.eqb t "string"); [stable_auto|apply stable_call]. }
      intros comp. apply stable_bind; [stable_auto|]. intros props.
      apply stable_bind; [stable_auto|]. intros children.
      apply stable_bind; [|stable_auto].
      destruct (truthy children); [|stable_auto].
      apply stable_bind; [stable_auto|]. intros props'.
      apply stable_bind; [stable_auto|]. intros children'.
      apply stable_array_forEach. intros child i.
      apply stable_bind; [stable_auto|]. intros child_type.
      apply stable_bind; [stable_auto|]. intros ct.
      destruct (negb (String.eqb ct "string")); [|stable_auto].
      repeat (apply stable_bind; [solve [stable_auto]|intro]).
      stable_auto.
Qed.

Lemma stable_createDom fuel fiber : stable J (createDom app fuel fiber).
Proof.
  revert fiber. induction fuel as [|fuel IH]; intros; simpl.
  - apply stable_out_of_fuel.
  - destruct (strict_eq fiber VNull); [stable_auto|].
    apply stable_bind; [stable_auto|]. intros type.
    apply stable_bind; [stable_auto|]. intros t.
    destruct (String.eqb t "function").
    + repeat (apply stable_bind; [solve [stable_auto]|intro]).
      apply IH.
    + apply stable_bind; [stable_auto|]. intros type'.
      apply stable_bind; [stable_auto|]. intros dom.
      apply stable_bind; [stable_auto|]. intros props.
      apply stable_bind; [stable_auto|]. intros props'.
      apply stable_bind; [stable_auto|]. intros empty.
      apply stable_bind; [stable_auto|]. intros _.
      apply stable_bind; [stable_auto|]. intros children.
      apply stable_bind; [|stable_auto].
      destruct (truthy children); [|stable_auto].
      apply stable_bind; [stable_auto|]. intros children'.
      apply stable_array_forEach. intros element _.
      apply stable_bind; [stable_auto|]. intros [|].
      * apply stable_array_forEach. intros child _.
        apply stable_bind; [apply IH|]. intros d. stable_auto.
      * apply stable_bind; [apply IH|]. intros d. stable_auto.
Qed.

(** [render] logs its entry and then runs steps that keep [J]. *)
Lemma render_keeps fuel component root s :
  (forall c r, stable J (reconcile app fuel c r)) ->
  J (add_event EvRender s) -> J (snd (render app fuel component root s)).
Proof.
  intros Hrec H. unfold render. run_ok. run_ok.
  set (c := if strict_eq component VUndefined then _component s else component).
  set (r := if strict_eq root VUndefined then _root s else root).
  assert (Hst : stable J
    (remove_children r ;;
     rootComponent <- reconcile app fuel c r ;;
     modify (set_context c r) ;;
     dom <- createDom app fuel rootComponent ;;
     appendChild r dom)).
  { apply stable_bind; [stable_auto|]. intros _.
    apply stable_bind; [apply Hrec|]. intros rootComponent.
    apply stable_bind; [apply (es_context J HJ)|]. intros _.
    apply stable_bind; [apply stable_createDom|]. intros dom. stable_auto. }
  exact (Hst _ H).
Qed.

End App.

End EngineStable.

(** ** The engine touches the hook store only through the hooks *)

Lemma hook_property_engine_stable (J : state -> Prop) :
  hook_property J -> engine_stable J.
Proof.
  intros HJ. split.
  - intros o s H. by apply (hp_heap J HJ).
  - intros dom f s H. unfold update_dom. destruct dom; try done.
    destruct (heap s !! l) as [[| | |n]|]; try done.
    destruct (f n); simpl; try done. by apply (hp_heap J HJ).
  - intros e He s H. by apply (hp_display J HJ).
  - intros c r s H. by apply (hp_context J HJ).
Qed.

Lemma hook_property_set_elem (J : state -> Prop) target i v :
  hook_property J -> stable J (set_elem target i v).
Proof.
  intros HJ s H. unfold set_elem. destruct target; try done.
  destruct (heap s !! l) as [[]|]; simpl; try done; by apply (hp_heap J HJ).
Qed.

Lemma render_keeps_hooks (J : state -> Prop) app fuel component root s :
  hook_property J ->
  (forall fn args, stable J (app fn args)) ->
  J (add_event EvRender s) -> J (snd (render app fuel component root s)).
Proof.
  intros HJ Happ. apply render_keeps; auto using hook_property_engine_stable.
  intros c r. apply stable_reconcile; auto using hook_property_engine_stable.
  intros. by apply hook_property_set_elem.
Qed.

(** Code written against the public surface keeps [J] as soon as the two
    hooks do. *)
Lemma stable_api_code (J : state -> Prop) {A} (m : M A) :
  hook_property J ->
  (forall initialValue, stable J (useState initialValue)) ->
  (forall callback depArr, stable J (useEffect callback depArr)) ->
  api_code m -> stable J m.
Proof.
  intros HJ HS HE Hm.
  induction Hm; auto using stable_ret, stable_throw, stable_createElement,
    hook_property_engine_stable.
  - by apply stable_bind.
  - apply readonly_stable. apply readonly_get_state.
  - intros s H. by apply (hp_heap J HJ).
  - intros s H. by apply (hp_heap J HJ).
Qed.


(** ** The state hook *)

Lemma setState_unchanged app fuel currIndex newVal s :
  Object_is (array_get (hooks s) currIndex) newVal = true ->
  setState app fuel currIndex newVal s = (Ok tt, s).
Proof. intros H. unfold setState, bind, get_state. by rewrite H. Qed.

(** C3. A setter called with a value that is the same value ([Object.is]: NaN
    equal to itself, [+0] and [-0] distinct) as the one stored in its slot
    does nothing: the whole engine state, slots, cursor and trace included,
    is as before, so no render happens.  A counter with one state hook
    initialised to [0] whose setter is called with [1], [1], [2] is rendered
    again exactly twice and then shows [2]. *)
Theorem setState_same_value_is_noop :
  (forall app fuel currIndex newVal s,
      Object_is (array_get (hooks s) currIndex) newVal = true ->
      setState app fuel currIndex newVal s = (Ok tt, s))
  /\ Object_is NaN NaN = true
  /\ Object_is (num 0) neg_zero = false
  /\ renders (trace (counter_after [num 1])) = S (renders (trace counter_mounted))
  /\ counter_after [num 1; num 1] = counter_after [num 1]
  /\ renders (trace (counter_after [num 1; num 1; num 2]))
     = S (S (renders (trace counter_mounted)))
  /\ shown_text (counter_after [num 1; num 1; num 2]) = num 2.
Proof.
  split; [exact setState_unchanged|].
  repeat match goal with |- _ /\ _ => split end; vm_compute; reflexivity.
Qed.

Lemma setState_same_value_is_noop_witness :
  Object_is (array_get (hooks (counter_after [num 1])) 0) (num 1) = true
  /\ setState (app_of Counter) 3 0 (num 1) (counter_after [num 1])
     = (Ok tt, counter_after [num 1]).
Proof.
  split; [vm_compute; reflexivity|].
  apply (proj1 setState_same_value_is_noop). vm_compute; reflexivity.
Defined.

(** C5, as the code has it. [useState] returns the slot at the cursor unless
    that slot reads as [null] or [undefined], and [initialValue] otherwise:
    a slot never written reads as [undefined], and a slot into which [null]
    or [undefined] was written gives [initialValue] as well.  The call does
    not write the slots and moves the cursor by one. *)
Theorem useState_returns_slot_or_initial (initialValue : value) (s : state) :
  let slot := array_get (hooks s) (index s) in
  exists setter s',
    useState initialValue s = (Ok (coalesce slot initialValue, setter), s')
    /\ (nullish slot = false -> coalesce slot initialValue = slot)
    /\ (nullish slot = true -> coalesce slot initialValue = initialValue)
    /\ (hooks s !! index s = None -> slot = VUndefined)
    /\ hooks s' = hooks s
    /\ index s' = S (index s).
Proof.
  intros slot. eexists _, _.
  split; [cbv [useState bind get_state alloc log modify ret]; reflexivity|].
  unfold coalesce. repeat match goal with |- _ /\ _ => split end; simpl; try done.
  - by intros ->.
  - by intros ->.
  - intros H. unfold slot, array_get. by rewrite H.
Qed.

Lemma useState_returns_slot_or_initial_witness :
  exists setter s',
    useState (num 0) (set_index 0 (counter_after [num 1])) = (Ok (num 1, setter), s')
    /\ index s' = 1.
Proof.
  destruct (useState_returns_slot_or_initial (num 0) (set_index 0 (counter_after [num 1])))
    as (setter & s' & E & _ & _ & _ & _ & Hi).
  exists setter, s'. split; [|exact Hi].
  rewrite E. f_equal.
Defined.

(** C5 fails when [null] was written: the setter stores [null] in slot 0 and
    the state hook, called at position 0, returns the initial value [0]. *)
Lemma useState_null_slot_counterexample :
  hooks (counter_after [num 1; VNull]) !! 0 = Some VNull
  /\ fst <$> result_of (useState (num 0) (set_index 0 (counter_after [num 1; VNull])))
     = Some (num 0)
  /\ num 0 <> VNull.
Proof.
  split; [vm_compute; reflexivity|]. split; [vm_compute; reflexivity|]. discriminate.
Qed.

(** ** Array indices as property names *)

Lemma index_key_parse i : NilZero.uint_of_string (index_key i) = Some (Nat.to_uint i).
Proof.
  unfold index_key. apply NilZero.usu.
  intros H. pose proof (DecimalNat.Unsigned.of_to i) as E. rewrite H in E.
  simpl in E. subst i. discriminate H.
Qed.

Lemma index_key_inj i j : index_key i = index_key j -> i = j.
Proof.
  intros H. apply DecimalNat.Unsigned.to_uint_inj.
  pose proof (index_key_parse i) as Hi. rewrite H, index_key_parse in Hi. congruence.
Qed.

Lemma index_key_not_length i : String.eqb (index_key i) "length" = false.
Proof.
  apply String.eqb_neq. intros H.
  pose proof (index_key_parse i) as Hi. rewrite H in Hi. discriminate Hi.
Qed.

Lemma assoc_imap_index (es : list value) (n i : nat) :
  assoc (index_key (n + i)) (imap (fun j x => (index_key (n + j), x)) es) = es !! i.
Proof.
  revert n i. induction es as [|x es IH]; intros n i; [done|].
  simpl. destruct i as [|i].
  - by rewrite String.eqb_refl.
  - destruct (String.eqb (index_key (n + 0)) (index_key (n + S i))) eqn:E.
    + apply String.eqb_eq, index_key_inj in E. lia.
    + simpl. rewrite <- (IH (S n) i).
      replace (S n + i) with (n + S i) by lia.
      f_equal. apply imap_ext. intros j y _. simpl. do 2 f_equal. lia.
Qed.

Lemma assoc_indexed (es : list value) (i : nat) :
  assoc (index_key i) (indexed es) = es !! i.
Proof. apply (assoc_imap_index es 0 i). Qed.

Lemma prop_get_array_index h l es i :
  h !! l = Some (OArray es) ->
  prop_get h (VRef l) (index_key i) = array_get es i.
Proof.
  intros H. unfold prop_get. rewrite H, index_key_not_length.
  by rewrite assoc_indexed.
Qed.

(** ** The effect hook *)

Lemma effect_runs_app k t1 t2 :
  effect_runs k (t1 ++ t2) = effect_runs k t1 + effect_runs k t2.
Proof. unfold effect_runs. by rewrite List.filter_app, length_app. Qed.

Lemma renders_app t1 t2 : renders (t1 ++ t2) = renders t1 + renders t2.
Proof. unfold renders. by rewrite List.filter_app, length_app. Qed.

Lemma existsb_imap_pair {A} (f : nat * A -> bool) (l : list A) (n : nat) :
  existsb f (imap (fun i x => (n + i, x)) l) = true <->
  exists i x, l !! i = Some x /\ f (n + i, x) = true.
Proof.
  revert n. induction l as [|y l IH]; intros n; simpl.
  - split; [done|]. by intros (i & x & H & _).
  - rewrite orb_true_iff. split.
    + intros [H|H].
      * by exists 0, y.
      * assert (E : imap ((fun i x => (n + i, x)) ∘ S) l = imap (fun i x => (S n + i, x)) l).
        { apply imap_ext. intros i x _. simpl. f_equal. lia. }
        rewrite E in H. apply IH in H as (i & x & Hl & Hf).
        exists (S i), x. split; [done|]. by replace (n + S i) with (S n + i) by lia.
    + intros (i & x & Hl & Hf). destruct i as [|i].
      * left. by simplify_eq/=.
      * right.
        assert (E : imap ((fun i x => (n + i, x)) ∘ S) l = imap (fun i x => (S n + i, x)) l).
        { apply imap_ext. intros j z _. simpl. f_equal. lia. }
        rewrite E. apply IH. exists i, x. split; [done|].
        by replace (S n + i) with (n + S i) by lia.
Qed.

Lemma deps_changed_spec (d0 d1 : list value) :
  deps_changed d0 d1 = true <->
  exists i x, d1 !! i = Some x /\ Object_is x (array_get d0 i) = false.
Proof.
  unfold deps_changed.
  rewrite (existsb_imap_pair _ d1 0). simpl.
  split; intros (i & x & H1 & H2); exists i, x; split; auto.
  - by apply negb_true_iff.
  - by apply negb_true_iff.
Qed.

Lemma existsb_pointwise {A} (f g : A -> bool) (l : list A) :
  (forall a, f a = g a) -> existsb f l = existsb g l.
Proof. intros H. induction l as [|a l IH]; simpl; [done|]. by rewrite H, IH. Qed.

Lemma call_callback_function callback s :
  typeof (heap s) callback = "function" ->
  call_callback callback s = (Ok tt, add_event (EvEffect (index s) callback) s).
Proof. intros H. unfold call_callback, bind, type_of. by rewrite H. Qed.

Lemma some_changed_array s depArr d1 oldDeps :
  elems_of (heap s) depArr = Some d1 ->
  some_changed depArr oldDeps s
  = (Ok (existsb (fun p => negb (Object_is (snd p)
                                  (prop_get (heap s) oldDeps (index_key (fst p)))))
           (imap pair d1)), s).
Proof.
  intros H1. unfold some_changed, bind, array_elems, get_state, ret.
  unfold elems_of in H1. destruct depArr; try done.
  destruct (heap s !! l) as [[]|] eqn:E; try done. by simplify_eq.
Qed.

(** What a call of the effect hook does when the callback is callable and
    the new dependency list is an array. *)
Lemma useEffect_run (callback depArr : value) (d1 : list value) (s : state) :
  typeof (heap s) callback = "function" ->
  elems_of (heap s) depArr = Some d1 ->
  let k := index s in
  let oldDeps := array_get (hooks s) k in
  let shouldRunEffect :=
    if truthy oldDeps then
      existsb (fun p => negb (Object_is (snd p)
                               (prop_get (heap s) oldDeps (index_key (fst p)))))
        (imap pair d1)
    else true in
  let s1 := add_event (EvUseEffect k callback depArr (Some d1)) s in
  useEffect callback depArr s
  = (Ok tt, set_index (S k) (set_hooks (array_set k depArr (hooks s))
              (if shouldRunEffect then add_event (EvEffect k callback) s1 else s1))).
Proof.
  intros Hcb Hd1 k oldDeps b s1.
  unfold useEffect. unfold bind at 1. unfold get_state.
  unfold bind at 1. unfold log at 1, modify at 1. rewrite Hd1. fold k oldDeps s1.
  unfold bind at 1.
  assert (Hb : (if truthy oldDeps then some_changed depArr oldDeps else ret true) s1
               = (Ok b, s1)).
  { unfold b. destruct (truthy oldDeps); [|done].
    by rewrite (some_changed_array s1 depArr d1 oldDeps Hd1). }
  rewrite Hb. unfold bind at 1.
  destruct b.
  - rewrite (call_callback_function callback s1 Hcb). reflexivity.
  - reflexivity.
Qed.

(** C1, as the code has it. With a callable callback and an array as the new
    dependency list [d1], the effect hook returns, stores the new list in the
    slot at the cursor and moves the cursor by one.  It runs the callback when
    the slot holds nothing (or any falsy value).  When the slot holds a list
    [d0] it runs the callback iff some entry of [d1] is not the same value as
    the entry of [d0] at its index, an index past the end of [d0] reading
    [undefined]: the lengths are not compared, so entries dropped from the
    end of the list go unseen. *)
Theorem useEffect_gating (callback depArr : value) (d1 : list value) (s : state) :
  typeof (heap s) callback = "function" ->
  elems_of (heap s) depArr = Some d1 ->
  let k := index s in
  let s' := snd (useEffect callback depArr s) in
  fst (useEffect callback depArr s) = Ok tt
  /\ hooks s' = array_set k depArr (hooks s)
  /\ index s' = S k
  /\ (truthy (array_get (hooks s) k) = false ->
      effect_runs k (trace s') = S (effect_runs k (trace s)))
  /\ (forall l0 d0,
        array_get (hooks s) k = VRef l0 ->
        heap s !! l0 = Some (OArray d0) ->
        effect_runs k (trace s')
        = effect_runs k (trace s) + (if deps_changed d0 d1 then 1 else 0)
        /\ (deps_changed d0 d1 = true <->
            exists i x, d1 !! i = Some x /\ Object_is x (array_get d0 i) = false)).
Proof.
  intros Hcb Hd1 k s'.
  pose proof (useEffect_run callback depArr d1 s Hcb Hd1) as E. cbv zeta in E.
  fold k in E. unfold s'. rewrite E. clear E s'. cbn [fst snd].
  split; [done|]. split; [by destruct (if truthy _ then _ else _)|].
  split; [by destruct (if truthy _ then _ else _)|].
  split.
  - intros ->. cbn [trace add_event set_index set_hooks].
    rewrite !effect_runs_app. unfold effect_runs at 2 3. cbn.
    rewrite Nat.eqb_refl. cbn. lia.
  - intros l0 d0 Hold H0. split; [|apply deps_changed_spec].
    rewrite Hold. cbn [truthy].
    assert (Hx : existsb (fun p => negb (Object_is (snd p)
                   (prop_get (heap s) (VRef l0) (index_key (fst p))))) (imap pair d1)
                 = deps_changed d0 d1).
    { apply existsb_pointwise. intros [i x]. cbn [fst snd].
      by rewrite (prop_get_array_index _ _ _ _ H0). }
    rewrite Hx. destruct (deps_changed d0 d1); cbn [trace add_event set_index set_hooks].
    + rewrite !effect_runs_app. unfold effect_runs at 2 3. cbn.
      rewrite Nat.eqb_refl. cbn. lia.
    + rewrite !effect_runs_app. unfold effect_runs at 2. cbn. lia.
Qed.

Lemma useEffect_gating_witness :
  effect_runs 0 (trace (snd (useEffect (VRef 0) (VRef 1) one_dep_state))) = 1.
Proof.
  destruct (useEffect_gating (VRef 0) (VRef 1) [num 1] one_dep_state eq_refl eq_refl)
    as (_ & _ & _ & H & _).
  apply H. reflexivity.
Defined.

(** C1 fails when the list gets shorter: the slot at position 1 holds
    [[1, 2]], the second render passes [[1]], the lengths differ and the
    callback is not run again. *)
Lemma useEffect_shorter_list_counterexample :
  elems_of (heap shrinking_mounted) (array_get (hooks shrinking_mounted) 1)
  = Some [num 1; num 2]
  /\ elems_of (heap shrinking_rerendered) (array_get (hooks shrinking_rerendered) 1)
     = Some [num 1]
  /\ renders (trace shrinking_rerendered) = S (renders (trace shrinking_mounted))
  /\ effect_runs 1 (trace shrinking_mounted) = 1
  /\ effect_runs 1 (trace shrinking_rerendered) = effect_runs 1 (trace shrinking_mounted).
Proof. repeat match goal with |- _ /\ _ => split end; vm_compute; reflexivity. Qed.

(** ** Materialization *)

(** C6. [createDom(null)] returns a new empty [div].  [createDom(undefined)]
    throws a TypeError at [fiber.type], before the lines that guard against a
    missing fiber with [fiber?.type] and [fiber?.props ?? {}]; a component
    without a [return] reaches it through [render]. *)
Theorem createDom_undefined_throws (app : func -> list value -> M value) (fuel : nat) (s : state) :
  createDom app (S fuel) VNull s
  = (Ok (VRef (List.length (heap s))),
     set_heap (heap s ++ [ODom (mkDom (DElement (VString "div")) [] [] [])]) s)
  /\ createDom app (S fuel) VUndefined s
     = (Throw (TypeError "cannot read properties of null or undefined"), s)
  /\ fst (mount Nothing 3 initial_state)
     = Throw (TypeError "cannot read properties of null or undefined").
Proof. split; [done|]. split; [done|]. vm_compute. reflexivity. Qed.


Lemma page_refs : page initial_state = (Ok (page_element, page_root), page_state).
Proof. vm_compute. reflexivity. Qed.

(** ** What one hook call does to the store and to the trace *)

Lemma useState_run (initialValue : value) (s : state) :
  let k := index s in
  let v := coalesce (array_get (hooks s) k) initialValue in
  useState initialValue s
  = (Ok (v, VRef (List.length (heap s))),
     set_index (S k) (add_event (EvUseState k v)
       (set_heap (heap s ++ [OFunction (FSetter k)]) s))).
Proof. reflexivity. Qed.

Lemma useEffect_cases (callback depArr : value) (s : state) :
  let k := index s in
  let ev := EvUseEffect k callback depArr (elems_of (heap s) depArr) in
  let oldDeps := array_get (hooks s) k in
  let written s0 := set_index (S k) (set_hooks (array_set k depArr (hooks s)) s0) in
  (exists e, useEffect callback depArr s = (Throw e, add_event ev s))
  \/ (useEffect callback depArr s
      = (Ok tt, written (add_event (EvEffect k callback) (add_event ev s)))
      /\ (truthy oldDeps = true ->
          exists es, elems_of (heap s) depArr = Some es /\ es <> []))
  \/ (useEffect callback depArr s = (Ok tt, written (add_event ev s))
      /\ truthy oldDeps = true).
Proof.
  intros k ev oldDeps written.
  assert (Hcall : forall s1, index s1 = k ->
    call_callback callback s1 = (Ok tt, add_event (EvEffect k callback) s1)
    \/ exists e, call_callback callback s1 = (Throw e, s1)).
  { intros s1 <-. unfold call_callback, bind, type_of.
    destruct (String.eqb (typeof (heap s1) callback) "function"); [by left|right; by eexists]. }
  assert (Hchanged : truthy oldDeps = true ->
    (exists e, some_changed depArr oldDeps (add_event ev s) = (Throw e, add_event ev s))
    \/ exists es b, elems_of (heap s) depArr = Some es
         /\ some_changed depArr oldDeps (add_event ev s) = (Ok b, add_event ev s)
         /\ (b = true -> es <> [])).
  { intros _. unfold some_changed, bind, array_elems. cbn [heap add_event].
    destruct depArr as [| | | | |l]; try (left; by eexists).
    cbn [elems_of]. destruct (heap s !! l) as [[ps|es|f|n]|]; try (left; by eexists).
    right. exists es. eexists. split; [done|]. split; [reflexivity|].
    intros Hex ->. discriminate Hex. }
  unfold useEffect. run_ok. run_ok. fold k oldDeps ev.
  destruct (truthy oldDeps) eqn:Ht.
  - destruct (Hchanged eq_refl) as [[e He]|(es & b & Hes & Hb & Hne)].
    { left. exists e. by run_throw. }
    run_ok. destruct b.
    + destruct (Hcall (add_event ev s) eq_refl) as [Hc|[e Hc]].
      * right. left. split; [by run_ok|]. intros _. exists es. auto.
      * left. exists e. by run_throw.
    + right. right. split; [by run_ok|done].
  - run_ok.
    destruct (Hcall (add_event ev s) eq_refl) as [Hc|[e Hc]].
    + right. left. split; [by run_ok|]. intros; discriminate.
    + left. exists e. by run_throw.
Qed.

Lemma app_of_stable (J : state -> Prop) (body : M value) :
  stable J body -> forall fn args, stable J (app_of body fn args).
Proof.
  intros H fn args. unfold app_of.
  destruct fn as [[|id]|]; auto using stable_ret.
Qed.

Lemma api_app_stable (J : state -> Prop) app :
  hook_property J ->
  (forall initialValue, stable J (useState initialValue)) ->
  (forall callback depArr, stable J (useEffect callback depArr)) ->
  api_app app -> forall fn args, stable J (app fn args).
Proof. intros HJ HS HE Happ fn args. by apply stable_api_code. Qed.

(** ** The render entry point and the hook store *)

Lemma hook_store_hook_property (P : list value -> nat -> Prop) :
  hook_property (fun s => P (hooks s) (index s)).
Proof. by split. Qed.

Lemma useEffect_index callback depArr s :
  index (snd (useEffect callback depArr s)) = index s
  \/ index (snd (useEffect callback depArr s)) = S (index s).
Proof.
  destruct (useEffect_cases callback depArr s) as [[e E]|[[E _]|[E _]]];
    rewrite E; cbn; auto.
Qed.




(** ** A changed value: one render, which reads the new value *)

Lemma renders_display e : display_event e = true -> renders [e] = 0.
Proof. by destruct e. Qed.

Lemma reads_new_value_hook_property k v t0 : hook_property (reads_new_value k v t0).
Proof.
  split.
  - intros h s H. exact H.
  - intros c r s H. exact H.
  - intros e s He (t & Ht & Hr & Hv). exists (t ++ [e]). cbn [trace add_event].
    split; [by rewrite Ht, app_assoc|].
    split; [by rewrite renders_app, Hr, renders_display|].
    intros Hn. destruct (Hv Hn) as [Hread Hslot]. split; [|exact Hslot].
    intros x Hin. apply in_app_or in Hin as [Hin|[E|[]]]; [by apply Hread|].
    subst e. discriminate He.
Qed.

Lemma reads_new_value_useState k v t0 initialValue :
  stable (reads_new_value k v t0) (useState initialValue).
Proof.
  intros s (t & Ht & Hr & Hv). rewrite useState_run. cbn [snd].
  exists (t ++ [EvUseState (index s) (coalesce (array_get (hooks s) (index s)) initialValue)]).
  cbn [trace add_event set_index set_heap index hooks].
  split; [by rewrite Ht, app_assoc|].
  split; [by rewrite renders_app, Hr|].
  intros Hn. destruct (Hv Hn) as [Hread Hslot]. split.
  - intros x Hin. apply in_app_or in Hin as [Hin|[E|[]]]; [by apply Hread|].
    injection E as Ek Ex. subst x. rewrite Ek, Hslot by lia.
    unfold coalesce. by rewrite Hn.
  - intros Hle. apply Hslot. lia.
Qed.

Lemma reads_new_value_useEffect k v t0 callback depArr :
  stable (reads_new_value k v t0) (useEffect callback depArr).
Proof.
  intros s (t & Ht & Hr & Hv).
  destruct (useEffect_cases callback depArr s) as [[e E]|[[E _]|[E _]]];
    rewrite E; cbn [snd]; clear E.
  - eexists (t ++ [_]). cbn [trace add_event index hooks].
    split; [by rewrite Ht, app_assoc|]. split; [by rewrite renders_app, Hr|].
    intros Hn. destruct (Hv Hn) as [Hread Hslot]. split; [|exact Hslot].
    intros x Hin. apply in_app_or in Hin as [Hin|[?|[]]]; [by apply Hread|done].
  - eexists (t ++ [_; _]). cbn [trace add_event set_index set_hooks index hooks].
    split; [by rewrite Ht, <- !app_assoc|]. split; [by rewrite renders_app, Hr|].
    intros Hn. destruct (Hv Hn) as [Hread Hslot]. split.
    + intros x Hin. apply in_app_or in Hin as [Hin|[?|[?|[]]]]; [by apply Hread|done|done].
    + intros Hle. rewrite array_get_set_ne by lia. apply Hslot. lia.
  - eexists (t ++ [_]). cbn [trace add_event set_index set_hooks index hooks].
    split; [by rewrite Ht, app_assoc|]. split; [by rewrite renders_app, Hr|].
    intros Hn. destruct (Hv Hn) as [Hread Hslot]. split.
    + intros x Hin. apply in_app_or in Hin as [Hin|[?|[]]]; [by apply Hread|done].
    + intros Hle. rewrite array_get_set_ne by lia. apply Hslot. lia.
Qed.

Lemma setState_changed app fuel currIndex newVal s :
  Object_is (array_get (hooks s) currIndex) newVal = false ->
  setState app fuel currIndex newVal s
  = render app fuel VUndefined VUndefined
      (set_index 0 (set_hooks (array_set currIndex newVal (hooks s)) s)).
Proof.
  intros H. unfold setState. run_ok. rewrite H. cbn [negb]. run_ok. by run_ok.
Qed.


Lemma api_app_of (body : M value) : api_code body -> api_app (app_of body).
Proof.
  intros H fn args. unfold app_of. destruct fn as [[|id]|]; auto using api_ret.
Qed.

Ltac api_auto :=
  repeat first
    [ apply api_useState | apply api_useEffect | apply api_createElement
    | apply api_alloc | apply api_ret | apply api_get_state | apply api_throw
    | apply api_bind; [|intro] ].

Lemma Counter_api : api_code Counter.
Proof. unfold Counter. api_auto. Qed.

Lemma Ticker_api : api_code Ticker.
Proof. unfold Ticker. api_auto. Qed.


(** ** An effect with an empty dependency list *)

Lemma elems_of_truthy h d es : elems_of h d = Some es -> truthy d = true.
Proof. by destruct d. Qed.

Lemma runs_once_hook_property k : hook_property (runs_once k).
Proof.
  split.
  - intros h s H. exact H.
  - intros c r s H. exact H.
  - intros e s He H. unfold runs_once in *. cbn [trace add_event hooks].
    rewrite forallb_app, effect_runs_app. intros [Hall _]%andb_true_iff.
    rewrite (H Hall). destruct e; try discriminate He; cbn; lia.
Qed.

Lemma runs_once_useState k initialValue : stable (runs_once k) (useState initialValue).
Proof.
  intros s H. rewrite useState_run. unfold runs_once in *.
  cbn [snd trace add_event set_index set_heap hooks].
  rewrite forallb_app, effect_runs_app. intros [Hall _]%andb_true_iff.
  rewrite (H Hall). cbn. lia.
Qed.

Lemma runs_once_useEffect k callback depArr : stable (runs_once k) (useEffect callback depArr).
Proof.
  intros s H. unfold runs_once in *.
  destruct (useEffect_cases callback depArr s) as [[e E]|[[E Hran]|[E Hold]]];
    rewrite E; cbn [snd trace add_event set_index set_hooks hooks]; clear E.
  - rewrite forallb_app, effect_runs_app. intros [Hall _]%andb_true_iff.
    rewrite (H Hall). cbn. lia.
  - rewrite <- app_assoc. cbn [app].
    rewrite forallb_app, effect_runs_app. intros [Hall Hev]%andb_true_iff.
    rewrite (H Hall). cbn in Hev. unfold effect_runs. cbn.
    destruct (Nat.eqb (index s) k) eqn:Ek.
    + apply Nat.eqb_eq in Ek.
      destruct (elems_of (heap s) depArr) as [[|x es]|] eqn:Hes; try discriminate Hev.
      rewrite <- Ek, array_get_set_eq, (elems_of_truthy _ _ _ Hes).
      destruct (truthy (array_get (hooks s) (index s))); [|done].
      destruct (Hran eq_refl) as (es & Hes' & Hne). congruence.
    + apply Nat.eqb_neq in Ek. rewrite array_get_set_ne by done. cbn. lia.
  - rewrite forallb_app, effect_runs_app. intros [Hall Hev]%andb_true_iff.
    rewrite (H Hall). cbn in Hev. unfold effect_runs. cbn.
    destruct (Nat.eqb (index s) k) eqn:Ek.
    + apply Nat.eqb_eq in Ek.
      destruct (elems_of (heap s) depArr) as [[|x es]|] eqn:Hes; try discriminate Hev.
      rewrite <- Ek, array_get_set_eq, (elems_of_truthy _ _ _ Hes), Hold. lia.
    + apply Nat.eqb_neq in Ek. rewrite array_get_set_ne by done. lia.
Qed.

Lemma runs_once_perform k app fuel a :
  api_app app ->
  (forall j v, a = ActSet j v -> j <> k) ->
  stable (runs_once k) (perform app fuel a).
Proof.
  intros Happ Ha.
  assert (Hstable : forall fn args, stable (runs_once k) (app fn args)).
  { apply api_app_stable; auto using runs_once_hook_property,
      runs_once_useState, runs_once_useEffect. }
  assert (Hrender : forall c r s, runs_once k s -> runs_once k (snd (render app fuel c r s))).
  { intros c r s H.
    apply render_keeps_hooks; [apply runs_once_hook_property|exact Hstable|].
    unfold runs_once in *. cbn [trace add_event hooks].
    rewrite forallb_app, effect_runs_app. intros [Hall _]%andb_true_iff.
    rewrite (H Hall). cbn. lia. }
  intros s H. destruct a as [c r|j v]; cbn [perform].
  - by apply Hrender.
  - destruct (Object_is (array_get (hooks s) j) v) eqn:E.
    + by rewrite setState_unchanged.
    + rewrite setState_changed by done. apply Hrender.
      unfold runs_once in *. cbn [trace set_index set_hooks hooks].
      rewrite array_get_set_ne; [exact H|]. by apply (Ha j v).
Qed.

Lemma runs_once_session k app fuel acts s :
  api_app app ->
  (forall j v, In (ActSet j v) acts -> j <> k) ->
  runs_once k s -> runs_once k (session app fuel acts s).
Proof.
  intros Happ. revert s. induction acts as [|a acts IH]; intros s Ha H; [exact H|].
  cbn [session fold_left]. apply IH.
  - intros j v Hin. apply (Ha j v). by right.
  - apply runs_once_perform; auto. intros j v ->. apply (Ha j v). by left.
Qed.



(** ** The node builder *)

Lemma typeof_extend (h ext : heap_t) (v : value) :
  Forall (fun o => forall f, o <> OFunction f) ext ->
  typeof (h ++ ext) v = typeof h v.
Proof.
  intros Hext. destruct v as [| | | | |l]; try done. unfold typeof.
  destruct (decide (l < List.length h)) as [Hl|Hl].
  - by rewrite lookup_app_l.
  - rewrite lookup_app_r by lia. rewrite (lookup_ge_None_2 h l) by lia.
    destruct (ext !! (l - List.length h)) as [o|] eqn:E; [|done].
    apply list_elem_of_lookup_2 in E. rewrite Forall_forall in Hext.
    specialize (Hext o E). by destruct o as [| |f|]; [| |destruct (Hext f)|].
Qed.

Lemma own_props_extend (h ext : heap_t) (v : value) :
  valid_ref h v -> own_props (h ++ ext) v = own_props h v.
Proof.
  destruct v as [| | | | |l]; try done. unfold own_props, valid_ref.
  intros Hl. by rewrite lookup_app_l.
Qed.

Lemma text_node_at_extend h ext child c :
  text_node_at h child c -> text_node_at (h ++ ext) child c.
Proof.
  intros (l & lp & lk & -> & H1 & H2 & H3). exists l, lp, lk.
  repeat split; try done; by apply lookup_app_l_Some.
Qed.

Lemma text_node_run child s :
  text_node child s
  = (Ok (VRef (S (S (List.length (heap s))))),
     set_heap (heap s ++ [OArray [];
                          OObject [("nodeValue", child);
                                   ("children", VRef (List.length (heap s)))];
                          OObject [("type", VString "TEXT_NODE");
                                   ("props", VRef (S (List.length (heap s))))]]) s).
Proof.
  unfold text_node, bind, alloc. cbn. rewrite !length_app. cbn.
  rewrite <- !app_assoc. cbn. rewrite !Nat.add_1_r. reflexivity.
Qed.

Lemma set_heap_set_heap h1 h2 s : set_heap h2 (set_heap h1 s) = set_heap h2 s.
Proof. done. Qed.

(** The children of the builder, one by one: an object is kept, anything
    else becomes a new text node; only new objects are added to the heap. *)
Lemma normalize_children_run (children : list value) (s : state) :
  exists kids ext,
    mapM normalize_child children s = (Ok kids, set_heap (heap s ++ ext) s)
    /\ Forall (fun o => forall f, o <> OFunction f) ext
    /\ Forall2 (fun child c =>
         if String.eqb (typeof (heap s) child) "object" then c = child
         else text_node_at (heap s ++ ext) child c) children kids.
Proof.
  revert s. induction children as [|child children IH]; intros s.
  - exists [], []. rewrite app_nil_r. split; [by destruct s|]. split; constructor.
  - assert (Hn : normalize_child child s
                 = if String.eqb (typeof (heap s) child) "object" then (Ok child, s)
                   else text_node child s).
    { unfold normalize_child. run_ok. by destruct (String.eqb _ _). }
    destruct (String.eqb (typeof (heap s) child) "object") eqn:Et.
    + destruct (IH s) as (kids & ext & E & Hext & HF).
      exists (child :: kids), ext. split; [|split; [done|]].
      * cbn [mapM]. run_ok. rewrite (bind_ok _ _ _ _ _ E). reflexivity.
      * constructor; [by rewrite Et|done].
    + rewrite text_node_run in Hn.
      set (new := [OArray []; _; _]) in Hn.
      destruct (IH (set_heap (heap s ++ new) s)) as (kids & ext & E & Hext & HF).
      cbn [heap set_heap] in *.
      exists (VRef (S (S (List.length (heap s)))) :: kids), (new ++ ext).
      rewrite app_assoc. split; [|split].
      * cbn [mapM]. run_ok. rewrite (bind_ok _ _ _ _ _ E). reflexivity.
      * apply Forall_app. split; [|done]. unfold new. by repeat constructor.
      * constructor.
        -- rewrite Et. apply text_node_at_extend.
           exists (S (S (List.length (heap s)))), (S (List.length (heap s))),
             (List.length (heap s)).
           split; [done|]. unfold new.
           repeat split; rewrite lookup_app_r by lia.
           ++ by replace (_ - _) with 2 by lia.
           ++ by replace (_ - _) with 1 by lia.
           ++ by replace (_ - _) with 0 by lia.
        -- eapply Forall2_impl; [exact HF|]. intros c0 c1. cbn beta.
           rewrite typeof_extend; [done|]. unfold new. by repeat constructor.
Qed.

Lemma assoc_set_other key key' v ps :
  key' <> key -> assoc key' (assoc_set key v ps) = assoc key' ps.
Proof.
  intros Hne. induction ps as [|[k w] ps IH]; cbn.
  - destruct (String.eqb key key') eqn:E; [|done].
    apply String.eqb_eq in E. congruence.
  - destruct (String.eqb k key) eqn:E; cbn.
    + apply String.eqb_eq in E. subst k.
      destruct (String.eqb key key') eqn:E'; [|done].
      apply String.eqb_eq in E'. congruence.
    + by rewrite IH.
Qed.

Lemma assoc_set_same key v ps : assoc key (assoc_set key v ps) = Some v.
Proof.
  induction ps as [|[k w] ps IH]; cbn.
  - by rewrite String.eqb_refl.
  - destruct (String.eqb k key) eqn:E; cbn; by rewrite E.
Qed.



(** ** Property synchronization *)

Lemma filterM_pure {A} (p : A -> M bool) (q : A -> bool) (l : list A) (s : state) :
  (forall x, p x s = (Ok (q x), s)) ->
  filterM p l s = (Ok (List.filter q l), s).
Proof.
  intros Hp. induction l as [|x l IH]; [done|].
  cbn [filterM List.filter]. rewrite (bind_ok _ _ _ _ _ (Hp x)).
  rewrite (bind_ok _ _ _ _ _ IH). unfold ret. by destruct (q x).
Qed.

Section Sync.

Variables ld lp ln : loc.
Variables prevProps nextProps : list (string * value).

Local Abbreviation shape := (sync_shape ld lp ln prevProps nextProps).

Lemma sync_get_prev key s :
  shape s -> get_prop (VRef lp) key s = (Ok (lookup_field key prevProps), s).
Proof. intros (Hp & _ & _). unfold get_prop, prop_get. cbn [nullish]. by rewrite Hp. Qed.

Lemma sync_get_next key s :
  shape s -> get_prop (VRef ln) key s = (Ok (lookup_field key nextProps), s).
Proof. intros (_ & Hn & _). unfold get_prop, prop_get. cbn [nullish]. by rewrite Hn. Qed.

Lemma sync_has_next key s :
  shape s -> has_key key (VRef ln) s = (Ok (in_fields key nextProps), s).
Proof. intros (_ & Hn & _). unfold has_key. by rewrite Hn. Qed.

Lemma sync_isNew key s :
  shape s ->
  isNew (VRef lp) (VRef ln) key s
  = (Ok (negb (strict_eq (lookup_field key prevProps) (lookup_field key nextProps))), s).
Proof.
  intros H. unfold isNew.
  rewrite (bind_ok _ _ _ _ _ (sync_get_prev key s H)).
  by rewrite (bind_ok _ _ _ _ _ (sync_get_next key s H)).
Qed.

Lemma sync_isGone key s :
  shape s ->
  isGone (VRef lp) (VRef ln) key s = (Ok (negb (in_fields key nextProps)), s).
Proof.
  intros H. unfold isGone. by rewrite (bind_ok _ _ _ _ _ (sync_has_next key s H)).
Qed.

Lemma sync_keys_prev s :
  shape s -> Object_keys (VRef lp) s = (Ok (List.map fst prevProps), s).
Proof. intros (Hp & _ & _). unfold Object_keys, own_props. cbn [nullish]. by rewrite Hp. Qed.

Lemma sync_keys_next s :
  shape s -> Object_keys (VRef ln) s = (Ok (List.map fst nextProps), s).
Proof. intros (_ & Hn & _). unfold Object_keys, own_props. cbn [nullish]. by rewrite Hn. Qed.

(** One operation on the display node: it succeeds, logs its event and
    leaves the property objects alone. *)
Lemma sync_update_dom (e : event) (f : dom_node -> dom_node) s :
  shape s ->
  exists s',
    bind (log e) (fun _ => update_dom (VRef ld) (fun n => Ok (f n))) s = (Ok tt, s')
    /\ shape s' /\ trace s' = trace s ++ [e].
Proof.
  intros (Hp & Hn & n & Hd).
  eexists. split; [|split].
  - run_ok. unfold update_dom. cbn [heap add_event]. rewrite Hd. reflexivity.
  - assert (lp <> ld) by congruence. assert (ln <> ld) by congruence.
    repeat split; cbn [heap set_heap add_event].
    + by rewrite list_lookup_insert_ne.
    + by rewrite list_lookup_insert_ne.
    + eexists. apply list_lookup_insert_eq. by eapply lookup_lt_Some.
  - reflexivity.
Qed.

Lemma sync_forEach (f : string -> M unit) (ev : string -> event) (keys : list string) s :
  (forall name s0, shape s0 ->
     exists s', f name s0 = (Ok tt, s') /\ shape s' /\ trace s' = trace s0 ++ [ev name]) ->
  shape s ->
  exists s',
    forEach keys f s = (Ok tt, s') /\ shape s' /\ trace s' = trace s ++ List.map ev keys.
Proof.
  intros Hf. revert s. induction keys as [|name keys IH]; intros s H.
  - exists s. by rewrite app_nil_r.
  - destruct (Hf name s H) as (s1 & E1 & H1 & T1).
    destruct (IH s1 H1) as (s2 & E2 & H2 & T2).
    exists s2. split; [|split; [done|]].
    + cbn [forEach]. by rewrite (bind_ok _ _ _ _ _ E1).
    + rewrite T2, T1, <- app_assoc. reflexivity.
Qed.

Lemma sync_remove_step name s :
  shape s ->
  exists s',
    (handler <- get_prop (VRef lp) name ;;
     removeEventListener (VRef ld) (eventType name) handler) s = (Ok tt, s')
    /\ shape s'
    /\ trace s' = trace s ++ [EvRemoveListener (VRef ld) (eventType name)
                                (lookup_field name prevProps)].
Proof.
  intros H. rewrite (bind_ok _ _ _ _ _ (sync_get_prev name s H)).
  unfold removeEventListener. by apply sync_update_dom.
Qed.

Lemma sync_clear_step name s :
  shape s ->
  exists s',
    set_property (VRef ld) name (VString "") s = (Ok tt, s')
    /\ shape s'
    /\ trace s' = trace s ++ [EvSetProperty (VRef ld) name (VString "")].
Proof. intros H. unfold set_property. by apply sync_update_dom. Qed.

Lemma sync_apply_step name s :
  shape s ->
  exists s',
    (v <- get_prop (VRef ln) name ;; set_property (VRef ld) name v) s = (Ok tt, s')
    /\ shape s'
    /\ trace s' = trace s ++ [EvSetProperty (VRef ld) name (lookup_field name nextProps)].
Proof.
  intros H. rewrite (bind_ok _ _ _ _ _ (sync_get_next name s H)).
  unfold set_property. by apply sync_update_dom.
Qed.

Lemma sync_attach_step name s :
  shape s ->
  exists s',
    (handler <- get_prop (VRef ln) name ;;
     addEventListener (VRef ld) (eventType name) handler) s = (Ok tt, s')
    /\ shape s'
    /\ trace s' = trace s ++ [EvAddListener (VRef ld) (eventType name)
                                (lookup_field name nextProps)].
Proof.
  intros H. rewrite (bind_ok _ _ _ _ _ (sync_get_next name s H)).
  unfold addEventListener. by apply sync_update_dom.
Qed.

End Sync.



(** ** What the engine does to existing objects *)

Lemma frame_strict_refl h : frame_strict h h.
Proof. intros l o H. destruct o; eauto. Qed.

Lemma frame_strict_trans h1 h2 h3 :
  frame_strict h1 h2 -> frame_strict h2 h3 -> frame_strict h1 h3.
Proof.
  intros H12 H23 l o H. specialize (H12 l o H).
  destruct o; try (by apply (H23 _ _ H12)).
  destruct H12 as [es H2]. apply (H23 _ _ H2).
Qed.

Lemma frame_strict_app h ext : frame_strict h (h ++ ext).
Proof.
  intros l o H. destruct o; eauto using lookup_app_l_Some.
Qed.

Lemma frame_strict_write h h1 la es es' :
  frame_strict h h1 -> h1 !! la = Some (OArray es) ->
  frame_strict h (<[la := OArray es']> h1).
Proof.
  intros Hf Ha l o H. specialize (Hf l o H).
  destruct (decide (l = la)) as [->|Hne].
  - assert (Hlt : la < List.length h1) by (by eapply lookup_lt_Some).
    destruct o; try congruence.
    exists es'. by apply list_lookup_insert_eq.
  - rewrite list_lookup_insert_ne by done. exact Hf.
Qed.

Lemma frame_strict_nodes h h' : frame_strict h h' -> frame_nodes h h'.
Proof. intros Hf l o H. specialize (Hf l o H). destruct o; eauto. Qed.

Lemma frame_nodes_refl h : frame_nodes h h.
Proof. apply frame_strict_nodes, frame_strict_refl. Qed.

Lemma frame_nodes_trans h1 h2 h3 :
  frame_nodes h1 h2 -> frame_nodes h2 h3 -> frame_nodes h1 h3.
Proof.
  intros H12 H23 l o H. specialize (H12 l o H).
  destruct o; try (by apply (H23 _ _ H12)).
  - destruct H12 as [es H2]. apply (H23 _ _ H2).
  - destruct H12 as [n' H2]. apply (H23 _ _ H2).
Qed.

Lemma frame_nodes_dom h h1 l n n' :
  frame_nodes h h1 -> h1 !! l = Some (ODom n) ->
  frame_nodes h (<[l := ODom n']> h1).
Proof.
  intros Hf Hd l0 o H. specialize (Hf l0 o H).
  destruct (decide (l0 = l)) as [->|Hne].
  - assert (Hlt : l < List.length h1) by (by eapply lookup_lt_Some).
    destruct o; try congruence.
    + destruct Hf as [es Hf]. congruence.
    + exists n'. by apply list_lookup_insert_eq.
  - rewrite list_lookup_insert_ne by done. exact Hf.
Qed.

Lemma array_elems_cases v s :
  (exists es la, array_elems v s = (Ok es, s) /\ v = VRef la
                 /\ heap s !! la = Some (OArray es))
  \/ (exists e, array_elems v s = (Throw e, s)).
Proof.
  unfold array_elems. destruct v as [| | | | |l]; try (right; by eexists).
  destruct (heap s !! l) as [[ps|es|f|n]|] eqn:E; try (right; by eexists).
  left. by exists es, l.
Qed.

Lemma get_prop_run v key s :
  nullish v = false -> get_prop v key s = (Ok (prop_get (heap s) v key), s).
Proof. intros H. unfold get_prop. by rewrite H. Qed.

Lemma get_prop_opt_run v key s :
  get_prop_opt v key s
  = (Ok (if nullish v then VUndefined else prop_get (heap s) v key), s).
Proof. unfold get_prop_opt, get_prop. by destruct (nullish v). Qed.

Lemma truthy_not_nullish v : truthy v = true -> nullish v = false.
Proof. by destruct v. Qed.

Lemma assoc_imap_none (key : string) (es : list value) (n : nat) :
  (forall j, index_key j <> key) ->
  assoc key (imap (fun j x => (index_key (n + j), x)) es) = None.
Proof.
  intros Hkey. revert n. induction es as [|x es IH]; intros n; [done|].
  cbn. destruct (String.eqb (index_key (n + 0)) key) eqn:E.
  - apply String.eqb_eq in E. by destruct (Hkey (n + 0)).
  - rewrite <- (IH (S n)). f_equal. apply imap_ext. intros j y _. cbn.
    do 2 f_equal. lia.
Qed.

(** A property that is not [length] and not an array index, when it reads
    as a truthy value, reads the same after reconciliation steps: it does not
    come from an array. *)
Lemma prop_get_frame h h' v key :
  NilZero.uint_of_string key = None ->
  String.eqb key "length" = false ->
  frame_strict h h' ->
  truthy (prop_get h v key) = true ->
  prop_get h' v key = prop_get h v key.
Proof.
  intros Hkey Hlen Hf Ht. destruct v as [| | | | |l]; try done.
  unfold prop_get in *.
  destruct (h !! l) as [o|] eqn:E; [|done].
  specialize (Hf l o E). destruct o as [ps|es|f|n].
  - by rewrite Hf.
  - rewrite Hlen in Ht.
    change (indexed es) with (imap (fun j x => (index_key (0 + j), x)) es) in Ht.
    rewrite (assoc_imap_none key es 0) in Ht; [done|].
    intros j Hj. pose proof (index_key_parse j) as Hp. rewrite Hj in Hp. congruence.
  - done.
  - by rewrite Hf.
Qed.

Lemma createElement_extends type props children s :
  exists node ext,
    createElement type props children s = (Ok node, set_heap (heap s ++ ext) s).
Proof.
  destruct (normalize_children_run children s) as (kids & ext & E & _ & _).
  eexists _, (ext ++ [_; _; _]).
  unfold createElement. rewrite (bind_ok _ _ _ _ _ E).
  run_ok. run_ok. run_ok. unfold alloc. cbn [heap set_heap].
  rewrite set_heap_set_heap, <- !app_assoc. reflexivity.
Qed.

Section Frame.

Variable app : func -> list value -> M value.
Hypothesis Happ :
  forall fn args s, frame_strict (heap s) (heap (snd (app fn args s))).

Lemma frame_step_stable {A} (m : M A) h0 :
  (forall s, frame_strict (heap s) (heap (snd (m s)))) ->
  stable (fun s => frame_strict h0 (heap s)) m.
Proof. intros Hm s H. eapply frame_strict_trans; [exact H|apply Hm]. Qed.

Lemma frame_alloc h0 o : stable (fun s => frame_strict h0 (heap s)) (alloc o).
Proof.
  apply frame_step_stable. intros s. cbn [alloc snd heap set_heap].
  apply frame_strict_app.
Qed.

Lemma frame_call h0 f args : stable (fun s => frame_strict h0 (heap s)) (call app f args).
Proof.
  unfold call. apply stable_bind; [stable_auto|]. intros s0.
  destruct f; try apply stable_type_error.
  destruct (heap s0 !! l) as [[]|]; try apply stable_type_error.
  apply frame_step_stable, Happ.
Qed.

(** One step of the loop over the children of [comp], when the loop started
    in a state with heap [h] where [comp.props.children] was the array at
    [la]: the slot is overwritten in that same array. *)
Lemma frame_resolve_child fuel (h0 h : heap_t) comp root la es i :
  (forall component root s,
      frame_strict (heap s) (heap (snd (reconcile app fuel component root s)))) ->
  nullish comp = false ->
  truthy (prop_get h comp "props") = true ->
  prop_get h (prop_get h comp "props") "children" = VRef la ->
  h !! la = Some (OArray es) ->
  stable (fun s => frame_strict h0 (heap s) /\ frame_strict h (heap s))
    (props <- get_prop comp "props" ;;
     target <- get_prop props "children" ;;
     props <- get_prop comp "props" ;;
     children <- get_prop props "children" ;;
     arg <- get_prop children (index_key i) ;;
     resolved <- reconcile app fuel arg root ;;
     set_elem target i resolved).
Proof.
  intros IH Hcomp Hprops Hchildren Hla s [H0 H].
  assert (Ep : prop_get (heap s) comp "props" = prop_get h comp "props").
  { by apply prop_get_frame. }
  assert (Ec : prop_get (heap s) (prop_get h comp "props") "children" = VRef la).
  { rewrite <- Hchildren. apply prop_get_frame; try done. by rewrite Hchildren. }
  assert (Hnp : nullish (prop_get h comp "props") = false) by by apply truthy_not_nullish.
  rewrite (bind_ok _ _ _ _ _ (get_prop_run comp "props" s Hcomp)). rewrite Ep.
  rewrite (bind_ok _ _ _ _ _ (get_prop_run _ "children" s Hnp)). rewrite Ec.
  rewrite (bind_ok _ _ _ _ _ (get_prop_run comp "props" s Hcomp)). rewrite Ep.
  rewrite (bind_ok _ _ _ _ _ (get_prop_run _ "children" s Hnp)). rewrite Ec.
  rewrite (bind_ok _ _ _ _ _ (get_prop_run (VRef la) (index_key i) s eq_refl)).
  unfold bind. specialize (IH (prop_get (heap s) (VRef la) (index_key i)) root s).
  destruct (reconcile app fuel _ root s) as [[resolved|e|] s1]; cbn [snd] in *.
  - assert (H1 : frame_strict h (heap s1)) by (by eapply frame_strict_trans).
    assert (H01 : frame_strict h0 (heap s1)) by (by eapply frame_strict_trans).
    destruct (H1 la _ Hla) as [es1 Hla1].
    unfold set_elem. rewrite Hla1. cbn [snd heap set_heap].
    split; by eapply frame_strict_write.
  - split; by eapply frame_strict_trans.
  - split; by eapply frame_strict_trans.
Qed.

Lemma reconcile_frame fuel component root s :
  frame_strict (heap s) (heap (snd (reconcile app fuel component root s))).
Proof.
  revert component root s. induction fuel as [|fuel IH]; intros component root s.
  { apply frame_strict_refl. }
  assert (Hst : forall h0,
    stable (fun s => frame_strict h0 (heap s)) (reconcile app (S fuel) component root)).
  2:{ apply (Hst (heap s) s), frame_strict_refl. }
  clear s. intros h0. cbn [reconcile].
  apply stable_bind; [stable_auto|]. intros type.
  apply stable_bind; [stable_auto|]. intros [|].
  - unfold array_map. apply stable_bind; [stable_auto|]. intros es.
    apply stable_bind; [|intros rs; apply frame_alloc].
    apply stable_mapM. intros i. apply stable_bind; [stable_auto|].
    intros [x|]; [|apply stable_ret]. apply frame_step_stable, IH.
  - apply stable_bind; [stable_auto|]. intros t.
    apply stable_bind.
    { destruct (String.eqb t "string"); [apply stable_ret|apply frame_call]. }
    intros comp s H0.
    rewrite (bind_ok _ _ _ _ _ (get_prop_opt_run comp "props" s)).
    set (props := if nullish comp then VUndefined else prop_get (heap s) comp "props").
    assert (Ec : (if truthy props then get_prop_opt props "children" else ret props) s
                 = (Ok (if truthy props then prop_get (heap s) props "children" else props), s)).
    { destruct (truthy props) eqn:Ht; [|done].
      rewrite get_prop_opt_run. by rewrite (truthy_not_nullish _ Ht). }
    rewrite (bind_ok _ _ _ _ _ Ec). clear Ec.
    destruct (truthy (if truthy props then prop_get (heap s) props "children" else props))
      eqn:Htc; [|exact H0].
    destruct (truthy props) eqn:Htp; [|congruence].
    assert (Hcomp : nullish comp = false).
    { unfold props in Htp. by destruct (nullish comp). }
    assert (Eprops : props = prop_get (heap s) comp "props").
    { unfold props. by rewrite Hcomp. }
    rewrite Eprops in Htp, Htc.
    set (Q := fun s' => frame_strict h0 (heap s') /\ frame_strict (heap s) (heap s')).
    assert (HQ : Q s) by (split; [exact H0|apply frame_strict_refl]).
    assert (Hnp : nullish (prop_get (heap s) comp "props") = false)
      by by apply truthy_not_nullish.
    assert (HX : Q (snd ((props <- get_prop comp "props" ;;
                          children <- get_prop props "children" ;;
                          array_forEach children (fun child i =>
                            child_type <- get_prop child "type" ;;
                            ct <- type_of child_type ;;
                            if negb (String.eqb ct "string") then
                              props <- get_prop comp "props" ;;
                              target <- get_prop props "children" ;;
                              props <- get_prop comp "props" ;;
                              children <- get_prop props "children" ;;
                              arg <- get_prop children (index_key i) ;;
                              resolved <- reconcile app fuel arg root ;;
                              set_elem target i resolved
                            else ret tt)) s))).
    { rewrite (bind_ok _ _ _ _ _ (get_prop_run comp "props" s Hcomp)).
      rewrite (bind_ok _ _ _ _ _ (get_prop_run _ "children" s Hnp)).
      unfold array_forEach.
      destruct (array_elems_cases (prop_get (heap s) (prop_get (heap s) comp "props") "children") s)
        as [(es & la & Ee & Ela & Hla)|[e Ee]].
      2:{ by rewrite (bind_throw _ _ _ _ _ Ee). }
      rewrite (bind_ok _ _ _ _ _ Ee).
      apply (stable_forEach Q); [|exact HQ]. intros i.
      apply stable_bind; [stable_auto|]. intros [x|]; [|apply stable_ret].
      apply stable_bind; [stable_auto|]. intros child_type.
      apply stable_bind; [stable_auto|]. intros ct.
      destruct (negb (String.eqb ct "string")); [|apply stable_ret].
      by apply (frame_resolve_child fuel h0 (heap s) comp root la es i). }
    unfold bind at 1.
    match goal with
    | H : Q (snd ?r) |- context [match ?r' with _ => _ end] =>
        change r' with r; destruct r as [[u|e|] s1]
    end; apply HX.
Qed.


Lemma frame_nodes_engine_stable h0 : engine_stable (fun s => frame_nodes h0 (heap s)).
Proof.
  split.
  - intros o s H. cbn [alloc snd heap set_heap].
    eapply frame_nodes_trans; [exact H|]. apply frame_strict_nodes, frame_strict_app.
  - intros dom f s H. unfold update_dom. destruct dom as [| | | | |l]; try done.
    destruct (heap s !! l) as [[| | |n]|] eqn:E; try done.
    destruct (f n); cbn [snd heap set_heap]; try done.
    by eapply frame_nodes_dom.
  - intros e _ s H. exact H.
  - intros c r s H. exact H.
Qed.

Lemma frame_nodes_app h0 fn args :
  stable (fun s => frame_nodes h0 (heap s)) (app fn args).
Proof.
  intros s H. eapply frame_nodes_trans; [exact H|]. apply frame_strict_nodes, Happ.
Qed.

Lemma frame_nodes_reconcile h0 fuel component root :
  stable (fun s => frame_nodes h0 (heap s)) (reconcile app fuel component root).
Proof.
  intros s H. eapply frame_nodes_trans; [exact H|].
  apply frame_strict_nodes, reconcile_frame.
Qed.

Lemma render_frame fuel component root s :
  frame_nodes (heap s) (heap (snd (render app fuel component root s))).
Proof.
  apply (render_keeps (fun s0 => frame_nodes (heap s) (heap s0))
           (frame_nodes_engine_stable (heap s)) app (frame_nodes_app (heap s))).
  - intros c r. apply frame_nodes_reconcile.
  - apply frame_nodes_refl.
Qed.

Lemma setState_frame fuel currIndex newVal s :
  frame_nodes (heap s) (heap (snd (setState app fuel currIndex newVal s))).
Proof.
  destruct (Object_is (array_get (hooks s) currIndex) newVal) eqn:E.
  - rewrite setState_unchanged by done. apply frame_nodes_refl.
  - rewrite setState_changed by done.
    apply (render_frame fuel VUndefined VUndefined
             (set_index 0 (set_hooks (array_set currIndex newVal (hooks s)) s))).
Qed.

End Frame.

Lemma useEffect_heap callback depArr s :
  heap (snd (useEffect callback depArr s)) = heap s.
Proof.
  destruct (useEffect_cases callback depArr s) as [[e E]|[[E _]|[E _]]]; by rewrite E.
Qed.

(** C2, as the code has it. The node objects and property objects that exist
    are never changed: the builder and the state hook only add objects to the
    heap, the effect hook leaves the heap alone, and reconciliation, a whole
    render and a setter call leave every existing plain object and function
    as it is, so a node keeps its kind and its properties, the reference to
    its children array included.  Arrays stay arrays, but their entries are
    not protected: reconciliation overwrites in place the entries of a
    children array whose kind is not a plain tag.  The functions of the
    application are taken to respect the same frame. *)
Theorem engine_keeps_node_objects
  (app : func -> list value -> M value) (fuel : nat) :
  (forall fn args s, frame_strict (heap s) (heap (snd (app fn args s)))) ->
  (forall type props children s,
      exists ext, heap (snd (createElement type props children s)) = heap s ++ ext)
  /\ (forall initialValue s,
        exists ext, heap (snd (useState initialValue s)) = heap s ++ ext)
  /\ (forall callback depArr s, heap (snd (useEffect callback depArr s)) = heap s)
  /\ (forall component root s,
        frame_strict (heap s) (heap (snd (reconcile app fuel component root s))))
  /\ (forall component root s,
        frame_nodes (heap s) (heap (snd (render app fuel component root s))))
  /\ (forall currIndex newVal s,
        frame_nodes (heap s) (heap (snd (setState app fuel currIndex newVal s)))).
Proof.
  intros Happ. repeat match goal with |- _ /\ _ => split end.
  - intros type props children s.
    destruct (createElement_extends type props children s) as (node & ext & E).
    exists ext. by rewrite E.
  - intros initialValue s. rewrite useState_run. by eexists.
  - apply useEffect_heap.
  - intros. by apply reconcile_frame.
  - intros. by apply render_frame.
  - intros. by apply setState_frame.
Qed.

Lemma frame_strict_of_extension {A} (m : M A) :
  (forall s, exists ext, heap (snd (m s)) = heap s ++ ext) ->
  forall s, frame_strict (heap s) (heap (snd (m s))).
Proof. intros H s. destruct (H s) as [ext ->]. apply frame_strict_app. Qed.

Lemma Static_frame fn args s :
  frame_strict (heap s) (heap (snd (app_of Static fn args s))).
Proof.
  unfold app_of. destruct fn as [[|id]|]; try apply frame_strict_refl.
  destruct (createElement_extends (VString "span") VNull [VString "static"] s)
    as (node & ext & E).
  unfold Static. rewrite E. apply frame_strict_app.
Qed.

Lemma engine_keeps_node_objects_witness :
  heap nested_reconciled !! 6
  = Some (OObject [("type", VString "div"); ("props", VRef 5)])
  /\ heap nested_reconciled !! 5 = Some (OObject [("children", VRef 4)]).
Proof.
  destruct (engine_keeps_node_objects (app_of Static) 3 Static_frame)
    as (_ & _ & _ & H & _).
  split.
  - apply (H (VRef 6) VNull nested_state 6
             (OObject [("type", VString "div"); ("props", VRef 5)])).
    reflexivity.
  - apply (H (VRef 6) VNull nested_state 5 (OObject [("children", VRef 4)])).
    reflexivity.
Defined.

(** C2 fails for the children entries: the [div] made by the builder has the
    element [<C />] (location 3) as its only child; after reconciliation the
    same children array (location 4) of the same node holds the [span] that
    the component returned (location 12). *)
Lemma reconcile_overwrites_child_counterexample :
  element_at (heap nested_state) (VRef 6) (VString "div") [] [VRef 3]
  /\ result_of (reconcile (app_of Static) 3 (VRef 6) VNull nested_state) = Some (VRef 6)
  /\ heap nested_state !! 4 = Some (OArray [VRef 3])
  /\ heap nested_reconciled !! 4 = Some (OArray [VRef 12])
  /\ prop_get (heap nested_reconciled) (VRef 12) "type" = VString "span".
Proof.
  split; [by exists 6, 5, 4|].
  repeat match goal with |- _ /\ _ => split end; vm_compute; reflexivity.
Qed.

(** ** More on the hook store *)

Lemma same_value_number_refl x : same_value_number x x = true.
Proof.
  destruct x as [s|s| |s m e]; cbn.
  - by destruct s.
  - by destruct s.
  - done.
  - unfold SFeqb, SFcompare. rewrite Z.compare_refl, Pos.compare_cont_refl. by destruct s.
Qed.

Lemma Object_is_refl v : Object_is v v = true.
Proof.
  destruct v; cbn; try done.
  - by destruct b.
  - apply same_value_number_refl.
  - apply String.eqb_refl.
  - apply Nat.eqb_refl.
Qed.

(** X1. A setter called before anything was rendered: the remembered root is
    still [null], so the render it starts throws at [root.firstChild]; by
    then the slot has been written and the cursor set to zero, and they stay
    so. *)
Theorem setState_before_first_render
  (app : func -> list value -> M value) (fuel : nat)
  (currIndex : nat) (newVal : value) (s : state) :
  _root s = VNull ->
  Object_is (array_get (hooks s) currIndex) newVal = false ->
  exists e s',
    setState app fuel currIndex newVal s = (Throw (TypeError e), s')
    /\ array_get (hooks s') currIndex = newVal
    /\ index s' = 0
    /\ heap s' = heap s.
Proof.
  intros Hroot H. rewrite setState_changed by done.
  unfold render. run_ok. cbn [_root set_index set_hooks strict_eq Object_is].
  rewrite Hroot. run_ok.
  eexists _, _. split; [by run_throw|].
  cbn. split; [apply array_get_set_eq|done].
Qed.

Lemma setState_before_first_render_witness :
  exists e s',
    setState (app_of Counter) 3 0 (num 1) initial_state = (Throw (TypeError e), s')
    /\ hooks s' = [num 1].
Proof.
  destruct (setState_before_first_render (app_of Counter) 3 0 (num 1) initial_state
              eq_refl eq_refl) as (e & s' & E & _).
  exists e, s'. split; [exact E|].
  assert (E' : snd (setState (app_of Counter) 3 0 (num 1) initial_state) = s')
    by (by rewrite E).
  rewrite <- E'. vm_compute. reflexivity.
Defined.

Lemma useEffect_first_run callback depArr s :
  typeof (heap s) callback = "function" ->
  truthy (array_get (hooks s) (index s)) = false ->
  useEffect callback depArr s
  = (Ok tt,
     set_index (S (index s)) (set_hooks (array_set (index s) depArr (hooks s))
       (add_event (EvEffect (index s) callback)
          (add_event (EvUseEffect (index s) callback depArr (elems_of (heap s) depArr)) s)))).
Proof.
  intros Hcb Hslot. unfold useEffect. run_ok. run_ok. rewrite Hslot. run_ok.
  cbv iota. erewrite bind_ok by (apply call_callback_function; exact Hcb).
  run_ok. reflexivity.
Qed.



(** X3. The two ways in which the effect hook throws leave the hook store as
    it was: a new dependency list that is not an array while a list is
    stored ([depArr.some] is not a function), and a callback that is not a
    function when it is due to run.  Neither the slot nor the cursor is
    written and no callback runs. *)
Theorem useEffect_throws_before_writing (callback depArr : value) (s : state) :
  (truthy (array_get (hooks s) (index s)) = true /\ elems_of (heap s) depArr = None)
  \/ (truthy (array_get (hooks s) (index s)) = false
      /\ typeof (heap s) callback <> "function") ->
  exists msg,
    fst (useEffect callback depArr s) = Throw (TypeError msg)
    /\ hooks (snd (useEffect callback depArr s)) = hooks s
    /\ index (snd (useEffect callback depArr s)) = index s
    /\ effect_runs (index s) (trace (snd (useEffect callback depArr s)))
       = effect_runs (index s) (trace s).
Proof.
  intros [[Hslot Hdep]|[Hslot Hcb]]; unfold useEffect.
  - run_ok. run_ok. rewrite Hslot.
    assert (E : some_changed depArr (array_get (hooks s) (index s))
                  (add_event (EvUseEffect (index s) callback depArr
                                (elems_of (heap s) depArr)) s)
                = (Throw (TypeError "not a function"),
                   add_event (EvUseEffect (index s) callback depArr
                                (elems_of (heap s) depArr)) s)).
    { unfold some_changed, array_elems. unfold elems_of in Hdep.
      destruct depArr as [| | | | |l]; try done.
      unfold bind. cbn [heap add_event].
      by destruct (heap s !! l) as [[]|]. }
    rewrite (bind_throw _ _ _ _ _ E). exists "not a function".
    cbn [fst snd hooks index trace add_event]. rewrite effect_runs_app.
    repeat split. unfold effect_runs at 2. cbn. lia.
  - run_ok. run_ok. rewrite Hslot. run_ok. cbv iota.
    assert (E : call_callback callback
                  (add_event (EvUseEffect (index s) callback depArr
                                (elems_of (heap s) depArr)) s)
                = (Throw (TypeError "callback is not a function"),
                   add_event (EvUseEffect (index s) callback depArr
                                (elems_of (heap s) depArr)) s)).
    { unfold call_callback, type_of. run_ok. cbn [heap add_event].
      apply String.eqb_neq in Hcb. by rewrite Hcb. }
    rewrite (bind_throw _ _ _ _ _ E). exists "callback is not a function".
    cbn [fst snd hooks index trace add_event]. rewrite effect_runs_app.
    repeat split. unfold effect_runs at 2. cbn. lia.
Qed.

Lemma useEffect_throws_before_writing_witness :
  hooks (snd (useEffect (VRef 1) (num 7) stored_list_state)) = [VRef 0]
  /\ index (snd (useEffect (VRef 1) (num 7) stored_list_state)) = 0.
Proof.
  destruct (useEffect_throws_before_writing (VRef 1) (num 7) stored_list_state)
    as (msg & _ & Hh & Hi & _).
  - left. split; reflexivity.
  - split; [exact Hh|exact Hi].
Defined.

Lemma useState_sequence_run (inits : list value) (s : state) :
  exists results s',
    mapM useState inits s = (Ok results, s')
    /\ List.map fst results
       = imap (fun j init => coalesce (array_get (hooks s) (index s + j)) init) inits
    /\ hooks s' = hooks s
    /\ index s' = index s + List.length inits.
Proof.
  revert s. induction inits as [|init inits IH]; intros s.
  - exists [], s. cbn. repeat split. lia.
  - pose proof (useState_run init s) as E. cbv zeta in E.
    destruct (IH (snd (useState init s))) as (results & s' & E' & Hv & Hh & Hi).
    rewrite E in E', Hv, Hh, Hi. cbn [snd hooks index set_index add_event set_heap] in *.
    eexists (_ :: results), s'. split; [|split; [|split]].
    + cbn [mapM]. rewrite (bind_ok _ _ _ _ _ E). rewrite (bind_ok _ _ _ _ _ E').
      reflexivity.
    + cbn [List.map fst imap]. rewrite Nat.add_0_r. f_equal. rewrite Hv.
      apply imap_ext. intros j x _. cbn. do 2 f_equal. lia.
    + exact Hh.
    + rewrite Hi. cbn [List.length]. lia.
Qed.

(** X4. State hooks called one after the other read consecutive slots: the
    [j]-th call returns the slot at the cursor plus [j], or its own initial
    value where that slot reads as [null] or [undefined].  The calls write no
    slot, so the same calls made again from the same cursor position return
    the same values. *)
Theorem useState_calls_read_consecutive_slots (inits : list value) (s : state) :
  exists results s',
    mapM useState inits s = (Ok results, s')
    /\ List.map fst results
       = imap (fun j init => coalesce (array_get (hooks s) (index s + j)) init) inits
    /\ hooks s' = hooks s
    /\ index s' = index s + List.length inits
    /\ exists results' s'',
         mapM useState inits (set_index (index s) s') = (Ok results', s'')
         /\ List.map fst results' = List.map fst results.
Proof.
  destruct (useState_sequence_run inits s) as (results & s' & E & Hv & Hh & Hi).
  exists results, s'. repeat match goal with |- _ /\ _ => split end; try done.
  destruct (useState_sequence_run inits (set_index (index s) s'))
    as (results' & s'' & E' & Hv' & _).
  exists results', s''. split; [exact E'|].
  rewrite Hv', Hv. cbn [hooks index set_index]. by rewrite Hh.
Qed.

(** ** Which slots a render writes *)

Lemma existsb_app_false {A} (f : A -> bool) l1 l2 :
  existsb f (l1 ++ l2) = false -> existsb f l1 = false /\ existsb f l2 = false.
Proof. rewrite existsb_app. by intros [? ?]%orb_false_iff. Qed.

Lemma slots_kept_hook_property hs0 t0 : hook_property (slots_kept hs0 t0).
Proof.
  split.
  - intros h s H. exact H.
  - intros c r s H. exact H.
  - intros e s He (t & Ht & Hk). exists (t ++ [e]). cbn [trace add_event hooks].
    split; [by rewrite Ht, app_assoc|].
    intros j Hj. apply existsb_app_false in Hj as [Hj _]. by apply Hk.
Qed.

Lemma slots_kept_useState hs0 t0 initialValue :
  stable (slots_kept hs0 t0) (useState initialValue).
Proof.
  intros s (t & Ht & Hk). rewrite useState_run. cbn [snd]. eexists (t ++ [_]).
  cbn [trace add_event set_index set_heap hooks].
  split; [by rewrite Ht, app_assoc|].
  intros j Hj. apply existsb_app_false in Hj as [Hj _]. by apply Hk.
Qed.

Lemma slots_kept_useEffect hs0 t0 callback depArr :
  stable (slots_kept hs0 t0) (useEffect callback depArr).
Proof.
  intros s (t & Ht & Hk).
  destruct (useEffect_cases callback depArr s) as [[e E]|[[E _]|[E _]]];
    rewrite E; cbn [snd]; clear E.
  - eexists (t ++ [_]). cbn [trace add_event hooks].
    split; [by rewrite Ht, app_assoc|].
    intros j Hj. apply existsb_app_false in Hj as [Hj _]. by apply Hk.
  - eexists (t ++ [_; _]). cbn [trace add_event set_index set_hooks hooks].
    split; [by rewrite Ht, <- !app_assoc|].
    intros j Hj. apply existsb_app_false in Hj as [Hj Hnew].
    cbn in Hnew. apply orb_false_iff in Hnew as [Hne _]. apply Nat.eqb_neq in Hne.
    rewrite array_get_set_ne by done. by apply Hk.
  - eexists (t ++ [_]). cbn [trace add_event set_index set_hooks hooks].
    split; [by rewrite Ht, app_assoc|].
    intros j Hj. apply existsb_app_false in Hj as [Hj Hnew].
    cbn in Hnew. apply orb_false_iff in Hnew as [Hne _]. apply Nat.eqb_neq in Hne.
    rewrite array_get_set_ne by done. by apply Hk.
Qed.

Lemma render_slots_kept app fuel component root s :
  api_app app ->
  slots_kept (hooks s) (trace s) (snd (render app fuel component root s)).
Proof.
  intros Happ. apply render_keeps_hooks.
  - apply slots_kept_hook_property.
  - apply api_app_stable; auto using slots_kept_hook_property,
      slots_kept_useState, slots_kept_useEffect.
  - exists [EvRender]. split; [done|]. by intros j _.
Qed.

Lemma slots_kept_drop hs0 t0 s j :
  slots_kept hs0 t0 s ->
  existsb (effect_call_at j) (drop (List.length t0) (trace s)) = false ->
  array_get (hooks s) j = array_get hs0 j.
Proof.
  intros (t & Ht & Hk) Hj. apply Hk. by rewrite Ht, drop_app_length in Hj.
Qed.





(** ** Reconciliation of host nodes *)

Lemma forEach_unchanged {A} (l : list A) (f : A -> M unit) s :
  (forall x, x ∈ l -> f x s = (Ok tt, s)) -> forEach l f s = (Ok tt, s).
Proof.
  induction l as [|x l IH]; intros Hf; [done|].
  cbn [forEach]. rewrite (bind_ok _ _ _ _ _ (Hf x (list_elem_of_here x l))).
  apply IH. intros y Hy. apply Hf. by apply list_elem_of_further.
Qed.

Lemma forEach_throws {A} (l1 l2 : list A) (x : A) (f : A -> M unit) s e :
  (forall y, y ∈ l1 -> f y s = (Ok tt, s)) ->
  f x s = (Throw e, s) ->
  forEach (l1 ++ x :: l2) f s = (Throw e, s).
Proof.
  induction l1 as [|y l1 IH]; intros Hf Hx.
  - cbn [app forEach]. by rewrite (bind_throw _ _ _ _ _ Hx).
  - cbn [app forEach]. rewrite (bind_ok _ _ _ _ _ (Hf y (list_elem_of_here y l1))).
    apply IH; [|done]. intros z Hz. apply Hf. by apply list_elem_of_further.
Qed.

Section HostLoop.

Variable W : nat -> M unit.

Local Abbreviation visit :=
  (fun (child : value) (i : nat) =>
     child_type <- get_prop child "type" ;;
     ct <- type_of child_type ;;
     if negb (String.eqb ct "string") then W i else ret tt).

Lemma visit_host_child la kids kid i s :
  heap s !! la = Some (OArray kids) ->
  kids !! i = Some kid ->
  host_child (heap s) kid ->
  (e <- live_elem (VRef la) i ;;
   match e with Some x => visit x i | None => ret tt end) s = (Ok tt, s).
Proof.
  intros Hla Hi [Hn Ht].
  assert (E : live_elem (VRef la) i s = (Ok (Some kid), s)).
  { unfold live_elem. by rewrite Hla, Hi. }
  rewrite (bind_ok _ _ _ _ _ E).
  rewrite (bind_ok _ _ _ _ _ (get_prop_run kid "type" s Hn)).
  unfold type_of. run_ok. by rewrite Ht.
Qed.

Lemma visit_nullish_child la kids kid i s :
  heap s !! la = Some (OArray kids) ->
  kids !! i = Some kid ->
  nullish kid = true ->
  (e <- live_elem (VRef la) i ;;
   match e with Some x => visit x i | None => ret tt end) s
  = (Throw (TypeError "cannot read properties of null or undefined"), s).
Proof.
  intros Hla Hi Hn.
  assert (E : live_elem (VRef la) i s = (Ok (Some kid), s)).
  { unfold live_elem. by rewrite Hla, Hi. }
  rewrite (bind_ok _ _ _ _ _ E).
  apply bind_throw. unfold get_prop. by rewrite Hn.
Qed.

Lemma host_children_loop la kids s :
  heap s !! la = Some (OArray kids) ->
  Forall (host_child (heap s)) kids ->
  array_forEach (VRef la) visit s = (Ok tt, s).
Proof.
  intros Hla Hkids. unfold array_forEach.
  assert (E : array_elems (VRef la) s = (Ok kids, s)).
  { unfold array_elems. by rewrite Hla. }
  rewrite (bind_ok _ _ _ _ _ E).
  apply forEach_unchanged. intros i Hi.
  apply list_elem_of_In, in_seq in Hi.
  destruct (lookup_lt_is_Some_2 kids i) as [kid Hkid]; [lia|].
  apply (visit_host_child la kids kid i s Hla Hkid).
  rewrite Forall_forall in Hkids. apply Hkids. by eapply list_elem_of_lookup_2.
Qed.

Lemma nullish_child_loop la good kid rest s :
  heap s !! la = Some (OArray (good ++ kid :: rest)) ->
  Forall (host_child (heap s)) good ->
  nullish kid = true ->
  array_forEach (VRef la) visit s
  = (Throw (TypeError "cannot read properties of null or undefined"), s).
Proof.
  intros Hla Hgood Hkid. unfold array_forEach.
  assert (E : array_elems (VRef la) s = (Ok (good ++ kid :: rest), s)).
  { unfold array_elems. by rewrite Hla. }
  rewrite (bind_ok _ _ _ _ _ E).
  rewrite length_app. cbn [List.length]. rewrite seq_app. cbn [seq].
  apply forEach_throws.
  - intros i Hi. apply list_elem_of_In, in_seq in Hi.
    destruct (lookup_lt_is_Some_2 good i) as [x Hx]; [lia|].
    apply (visit_host_child la (good ++ kid :: rest) x i s Hla).
    + by apply lookup_app_l_Some.
    + rewrite Forall_forall in Hgood. apply Hgood. by eapply list_elem_of_lookup_2.
  - apply (visit_nullish_child la (good ++ kid :: rest) kid _ s Hla); [|done].
    rewrite lookup_app_r by lia. by replace (_ - _) with 0 by lia.
Qed.

End HostLoop.

Lemma bind_same_state {A B} (m1 m2 : M A) (k : A -> M B) s :
  m1 s = m2 s -> bind m1 k s = bind m2 k s.
Proof. intros H. unfold bind. by rewrite H. Qed.

Lemma isArray_run v s :
  isArray v s = (Ok (bool_decide (is_Some (elems_of (heap s) v))), s).
Proof.
  unfold isArray, elems_of. destruct v as [| | | | |l]; try done.
  by destruct (heap s !! l) as [[]|].
Qed.

(** The steps of [reconcile] on a node whose kind is a string, up to the
    loop over its children. *)
Lemma reconcile_host_start app fuel comp root la s :
  host_element (heap s) comp la ->
  reconcile app (S fuel) comp root s
  = bind
      (array_forEach (VRef la) (fun child i =>
         child_type <- get_prop child "type" ;;
         ct <- type_of child_type ;;
         if negb (String.eqb ct "string") then
           props <- get_prop comp "props" ;;
           target <- get_prop props "children" ;;
           props <- get_prop comp "props" ;;
           children <- get_prop props "children" ;;
           arg <- get_prop children (index_key i) ;;
           resolved <- reconcile app fuel arg root ;;
           set_elem target i resolved
         else ret tt))
      (fun _ => ret comp) s.
Proof.
  intros (Hn & Harr & Ht & Hp & Hc). cbn [reconcile].
  rewrite (bind_ok _ _ _ _ _ (get_prop_run comp "type" s Hn)).
  rewrite (bind_ok _ _ _ _ _ (isArray_run comp s)). rewrite Harr.
  rewrite bool_decide_eq_false_2 by (by intros [? ?]).
  unfold type_of at 1. run_ok. rewrite Ht. cbn [String.eqb Ascii.eqb Bool.eqb].
  run_ok.
  rewrite (bind_ok _ _ _ _ _ (get_prop_opt_run comp "props" s)). rewrite Hn, Hp.
  rewrite (bind_ok _ _ _ _ _ (get_prop_opt_run _ "children" s)).
  rewrite (truthy_not_nullish _ Hp), Hc. cbn [truthy].
  apply bind_same_state.
  rewrite (bind_ok _ _ _ _ _ (get_prop_run comp "props" s Hn)).
  rewrite (bind_ok _ _ _ _ _ (get_prop_run _ "children" s (truthy_not_nullish _ Hp))).
  by rewrite Hc.
Qed.

(** X7. A node whose kind is a string and whose children all have a string
    as kind is returned as it is: [reconcile] calls no component, writes
    nothing and leaves the whole state unchanged.  Only the direct children
    are looked at; what lies below a host child is not resolved here. *)
Theorem reconcile_host_node_unchanged
  (app : func -> list value -> M value) (fuel : nat) (comp root : value)
  (la : loc) (kids : list value) (s : state) :
  host_element (heap s) comp la ->
  heap s !! la = Some (OArray kids) ->
  Forall (host_child (heap s)) kids ->
  reconcile app (S fuel) comp root s = (Ok comp, s).
Proof.
  intros Hcomp Hla Hkids. rewrite (reconcile_host_start app fuel comp root la s Hcomp).
  erewrite bind_ok; [reflexivity|].
  by apply (host_children_loop _ la kids s).
Qed.

Lemma reconcile_host_node_unchanged_witness :
  reconcile (app_of Static) 1 (VRef 5) VNull static_state = (Ok (VRef 5), static_state).
Proof.
  apply (reconcile_host_node_unchanged (app_of Static) 0 (VRef 5) VNull 3 [VRef 2]).
  - repeat split; reflexivity.
  - reflexivity.
  - repeat constructor.
Defined.

(** A child that is [null] (or [undefined]) stops reconciliation: when
    the children before it all have a string as kind, [reconcile] throws a
    TypeError at [child.type] and leaves the state unchanged. *)
Lemma reconcile_throws_on_null_child
  (app : func -> list value -> M value) (fuel : nat) (comp root : value)
  (la : loc) (good rest : list value) (kid : value) (s : state) :
  host_element (heap s) comp la ->
  heap s !! la = Some (OArray (good ++ kid :: rest)) ->
  Forall (host_child (heap s)) good ->
  nullish kid = true ->
  reconcile app (S fuel) comp root s
  = (Throw (TypeError "cannot read properties of null or undefined"), s).
Proof.
  intros Hcomp Hla Hgood Hkid.
  rewrite (reconcile_host_start app fuel comp root la s Hcomp).
  apply bind_throw. by apply (nullish_child_loop _ la good kid rest s).
Qed.

(** What the builder returns, for a property object that is in the heap. *)
Lemma createElement_run (type props : value) (children : list value) (s : state) :
  valid_ref (heap s) props ->
  exists node kids ext,
    createElement type props children s = (Ok node, set_heap (heap s ++ ext) s)
    /\ element_at (heap s ++ ext) node type (own_props (heap s) props) kids
    /\ Forall2 (fun child c =>
         if String.eqb (typeof (heap s) child) "object" then c = child
         else text_node_at (heap s ++ ext) child c) children kids.
Proof.
  intros Hvalid.
  destruct (normalize_children_run children s) as (kids & ext & E & Hext & HF).
  set (n := List.length (heap s ++ ext)).
  set (fields := assoc_set "children" (VRef n) (own_props (heap s) props)).
  exists (VRef (S (S n))), kids,
    (ext ++ [OArray kids; OObject fields; OObject [("type", type); ("props", VRef (S n))]]).
  split; [|split].
  - unfold createElement. rewrite (bind_ok _ _ _ _ _ E).
    run_ok. run_ok. run_ok. unfold alloc. cbn [heap set_heap].
    rewrite <- !app_assoc. rewrite (own_props_extend (heap s) _ props Hvalid).
    rewrite set_heap_set_heap. cbn [app].
    assert (E1 : List.length (heap s ++ ext ++ [OArray kids]) = S n).
    { unfold n. rewrite !length_app. cbn. lia. }
    assert (E2 : List.length (heap s ++ ext ++ [OArray kids; OObject fields]) = S (S n)).
    { unfold n. rewrite !length_app. cbn. lia. }
    fold n. fold fields. rewrite E1. by rewrite E2.
  - exists (S (S n)), (S n), n. split; [done|].
    rewrite !app_assoc. fold n.
    assert (Hn : n = List.length (heap s ++ ext)) by done.
    repeat split.
    + rewrite lookup_app_r by lia. by replace (_ - _) with 2 by lia.
    + rewrite lookup_app_r by lia. by replace (_ - _) with 1 by lia.
    + rewrite lookup_app_r by lia. by replace (_ - _) with 0 by lia.
  - eapply Forall2_impl; [exact HF|]. intros child c. cbn beta.
    destruct (String.eqb _ _); [done|].
    rewrite app_assoc. apply text_node_at_extend.
Qed.

Lemma element_at_host h node tag fields kids :
  element_at h node (VString tag) fields kids ->
  exists la, host_element h node la /\ h !! la = Some (OArray kids).
Proof.
  intros (l & lp & lk & -> & Hl & Hp & Hk). exists lk. split; [|done].
  unfold host_element, elems_of, prop_get. rewrite Hl. cbn. rewrite Hp.
  repeat split. unfold default. by rewrite assoc_set_same.
Qed.

Lemma text_node_at_host h child c : text_node_at h child c -> host_child h c.
Proof.
  intros (l & lp & lk & -> & Hl & _). split; [done|].
  unfold prop_get. rewrite Hl. reflexivity.
Qed.

(** X8. The builder keeps a [null] child as it is ([typeof null] is
    ['object']) and reconciliation of the node then throws: for a node of a
    string kind built from children that are not objects, then [null], then
    anything, [reconcile] throws a TypeError at [child.type] and leaves the
    state as the builder left it. *)
Theorem null_child_breaks_reconcile
  (app : func -> list value -> M value) (fuel : nat) (tag : string)
  (props root : value) (firsts rest : list value) (s : state) :
  valid_ref (heap s) props ->
  Forall (fun child => String.eqb (typeof (heap s) child) "object" = false) firsts ->
  exists node s1,
    createElement (VString tag) props (firsts ++ VNull :: rest) s = (Ok node, s1)
    /\ reconcile app (S fuel) node root s1
       = (Throw (TypeError "cannot read properties of null or undefined"), s1).
Proof.
  intros Hvalid Hfirsts.
  destruct (createElement_run (VString tag) props (firsts ++ VNull :: rest) s Hvalid)
    as (node & kids & ext & E & Hnode & HF).
  exists node, (set_heap (heap s ++ ext) s). split; [exact E|].
  apply Forall2_app_inv_l in HF as (k1 & k2 & HF1 & HF2 & ->).
  inversion HF2 as [|x kn xs kr Hkn HFr]; subst. cbn in Hkn. subst kn.
  destruct (element_at_host _ _ _ _ _ Hnode) as (la & Hhost & Hla).
  apply (reconcile_throws_on_null_child app fuel node root la k1 kr VNull);
    cbn [heap set_heap]; try done.
  clear -HF1 Hfirsts. induction HF1 as [|child c firsts k1 Hc HF1 IH]; [constructor|].
  inversion Hfirsts as [|? ? Hchild Hrest]; subst.
  rewrite Hchild in Hc. constructor; [by eapply text_node_at_host|by apply IH].
Qed.

Lemma null_child_breaks_reconcile_witness :
  exists node s1,
    createElement (VString "div") VNull [VString "a"; VNull] initial_state = (Ok node, s1)
    /\ reconcile (app_of Static) 1 node VNull s1
       = (Throw (TypeError "cannot read properties of null or undefined"), s1).
Proof.
  apply (null_child_breaks_reconcile (app_of Static) 0 "div" VNull VNull
           [VString "a"] [] initial_state).
  - exact I.
  - by repeat constructor.
Defined.

(** X9. A node whose kind is neither a string nor a function cannot be
    reconciled: [reconcile] takes the kind for a component, the call throws a
    TypeError and the state is left unchanged. *)
Theorem reconcile_rejects_unknown_kind
  (app : func -> list value -> M value) (fuel : nat) (component root : value)
  (s : state) :
  nullish component = false ->
  elems_of (heap s) component = None ->
  typeof (heap s) (prop_get (heap s) component "type") <> "string" ->
  typeof (heap s) (prop_get (heap s) component "type") <> "function" ->
  reconcile app (S fuel) component root s = (Throw (TypeError "not a function"), s).
Proof.
  intros Hn Harr Hs Hf. cbn [reconcile].
  rewrite (bind_ok _ _ _ _ _ (get_prop_run component "type" s Hn)).
  rewrite (bind_ok _ _ _ _ _ (isArray_run component s)). rewrite Harr.
  rewrite bool_decide_eq_false_2 by (by intros [? ?]).
  unfold type_of at 1. run_ok.
  apply String.eqb_neq in Hs. rewrite Hs.
  apply bind_throw. unfold call. run_ok.
  destruct (prop_get (heap s) component "type") as [| | | | |l]; try done.
  unfold typeof in Hf. by destruct (heap s !! l) as [[]|].
Qed.

Lemma reconcile_rejects_unknown_kind_witness :
  reconcile (app_of Static) 1 (VRef 1) VNull odd_kind_state
  = (Throw (TypeError "not a function"), odd_kind_state).
Proof.
  apply reconcile_rejects_unknown_kind; try reflexivity; vm_compute; discriminate.
Defined.

(** ** Property synchronization, with the display node *)

Section SyncNode.

Variables ld lp ln : loc.
Variables prevProps nextProps : list (string * value).
Variable n0 : dom_node.
Variable s0 : state.

Hypothesis Hd0 : heap s0 !! ld = Some (ODom n0).
Hypothesis Hp0 : heap s0 !! lp = Some (OObject prevProps).
Hypothesis Hn0 : heap s0 !! ln = Some (OObject nextProps).

Lemma after_ops_shape ops :
  sync_shape ld lp ln prevProps nextProps (after_ops ld n0 ops s0).
Proof.
  assert (lp <> ld) by congruence. assert (ln <> ld) by congruence.
  unfold sync_shape, after_ops. cbn [heap]. repeat split.
  - by rewrite list_lookup_insert_ne.
  - by rewrite list_lookup_insert_ne.
  - eexists. apply list_lookup_insert_eq. by eapply lookup_lt_Some.
Qed.

Lemma after_ops_node ops :
  heap (after_ops ld n0 ops s0) !! ld = Some (ODom (fold_left dom_apply ops n0)).
Proof. cbn [heap after_ops]. apply list_lookup_insert_eq. by eapply lookup_lt_Some. Qed.

Lemma after_ops_step ops e (f : dom_node -> dom_node) :
  (forall n, f n = dom_apply n e) ->
  bind (log e) (fun _ => update_dom (VRef ld) (fun n => Ok (f n))) (after_ops ld n0 ops s0)
  = (Ok tt, after_ops ld n0 (ops ++ [e]) s0).
Proof.
  intros Hf. run_ok. unfold update_dom.
  change (heap (add_event e (after_ops ld n0 ops s0))) with (heap (after_ops ld n0 ops s0)).
  rewrite after_ops_node. unfold after_ops, set_heap, add_event. cbn.
  rewrite list_insert_insert_eq, fold_left_app, app_assoc. cbn. by rewrite Hf.
Qed.

Lemma after_ops_forEach (f : string -> M unit) (ev : string -> event) keys ops :
  (forall name ops0, f name (after_ops ld n0 ops0 s0)
                     = (Ok tt, after_ops ld n0 (ops0 ++ [ev name]) s0)) ->
  forEach keys f (after_ops ld n0 ops s0)
  = (Ok tt, after_ops ld n0 (ops ++ List.map ev keys) s0).
Proof.
  intros Hf. revert ops. induction keys as [|name keys IH]; intros ops.
  - cbn. by rewrite app_nil_r.
  - cbn [forEach List.map]. rewrite (bind_ok _ _ _ _ _ (Hf name ops)).
    rewrite IH, <- app_assoc. reflexivity.
Qed.

(** [updateDom] on a display node and two plain objects: it returns, and the
    state it leaves is the one in which the operations of [sync_ops] were
    made, in that order, on the node. *)
Lemma updateDom_run :
  updateDom (VRef ld) (VRef lp) (VRef ln) s0
  = (Ok tt, after_ops ld n0 (sync_ops (VRef ld) prevProps nextProps) s0).
Proof.
  assert (Hstart : s0 = after_ops ld n0 [] s0).
  { unfold after_ops. cbn. rewrite app_nil_r, list_insert_id by done. by destruct s0. }
  rewrite Hstart at 1. unfold updateDom, sync_ops. cbv zeta.
  set (absent := fun key => negb (in_fields key nextProps)).
  set (changed := fun key => negb (strict_eq (lookup_field key prevProps)
                                     (lookup_field key nextProps))).
  rewrite (bind_ok _ _ _ _ _ (sync_keys_prev ld lp ln prevProps nextProps _ (after_ops_shape _))).
  erewrite bind_ok; cycle 1.
  { apply filterM_pure with (q := fun key => absent key || changed key). intros key.
    rewrite (bind_ok _ _ _ _ _ (sync_has_next ld lp ln prevProps nextProps key _
                                  (after_ops_shape _))).
    fold (absent key). destruct (absent key); [done|].
    apply (sync_isNew ld lp ln prevProps nextProps key _ (after_ops_shape _)). }
  erewrite bind_ok; cycle 1.
  { apply after_ops_forEach
      with (ev := fun name => EvRemoveListener (VRef ld) (eventType name)
                                (lookup_field name prevProps)).
    intros name ops0.
    rewrite (bind_ok _ _ _ _ _ (sync_get_prev ld lp ln prevProps nextProps name _
                                  (after_ops_shape _))).
    unfold removeEventListener. by apply after_ops_step. }
  rewrite (bind_ok _ _ _ _ _ (sync_keys_prev ld lp ln prevProps nextProps _ (after_ops_shape _))).
  erewrite bind_ok; cycle 1.
  { apply filterM_pure with (q := absent). intros key.
    apply (sync_isGone ld lp ln prevProps nextProps key _ (after_ops_shape _)). }
  erewrite bind_ok; cycle 1.
  { apply after_ops_forEach
      with (ev := fun name => EvSetProperty (VRef ld) name (VString "")).
    intros name ops0. unfold set_property. by apply after_ops_step. }
  rewrite (bind_ok _ _ _ _ _ (sync_keys_next ld lp ln prevProps nextProps _ (after_ops_shape _))).
  erewrite bind_ok; cycle 1.
  { apply filterM_pure with (q := changed). intros key.
    apply (sync_isNew ld lp ln prevProps nextProps key _ (after_ops_shape _)). }
  erewrite bind_ok; cycle 1.
  { apply after_ops_forEach
      with (ev := fun name => EvSetProperty (VRef ld) name (lookup_field name nextProps)).
    intros name ops0.
    rewrite (bind_ok _ _ _ _ _ (sync_get_next ld lp ln prevProps nextProps name _
                                  (after_ops_shape _))).
    unfold set_property. by apply after_ops_step. }
  rewrite (bind_ok _ _ _ _ _ (sync_keys_next ld lp ln prevProps nextProps _ (after_ops_shape _))).
  erewrite bind_ok; cycle 1.
  { apply filterM_pure with (q := changed). intros key.
    apply (sync_isNew ld lp ln prevProps nextProps key _ (after_ops_shape _)). }
  erewrite after_ops_forEach
    with (ev := fun name => EvAddListener (VRef ld) (eventType name)
                              (lookup_field name nextProps)).
  - cbn [app]. by rewrite <- !app_assoc.
  - intros name ops0.
    rewrite (bind_ok _ _ _ _ _ (sync_get_next ld lp ln prevProps nextProps name _
                                  (after_ops_shape _))).
    unfold addEventListener. by apply after_ops_step.
Qed.

End SyncNode.

Lemma after_ops_nil ld n s :
  heap s !! ld = Some (ODom n) -> after_ops ld n [] s = s.
Proof.
  intros H. unfold after_ops. cbn. rewrite app_nil_r, list_insert_id by done.
  by destruct s.
Qed.

Lemma SFeqb_refl x : x <> S754_nan -> SFeqb x x = true.
Proof.
  intros Hx. destruct x as [s|s| |s m e]; try done.
  - by destruct s.
  - unfold SFeqb, SFcompare. rewrite Z.compare_refl, Pos.compare_cont_refl. by destruct s.
Qed.

Lemma strict_eq_refl v : v <> NaN -> strict_eq v v = true.
Proof.
  intros Hv. destruct v; try apply (Object_is_refl _).
  cbn. apply SFeqb_refl. intros ->. by apply Hv.
Qed.

Lemma assoc_of_key key (fields : list (string * value)) :
  key ∈ List.map fst fields -> exists v, assoc key fields = Some v /\ (key, v) ∈ fields.
Proof.
  induction fields as [|[k w] fields IH]; cbn; [by intros ?%elem_of_nil|].
  intros Hin. destruct (String.eqb k key) eqn:E.
  - apply String.eqb_eq in E. subst k. exists w. split; [done|]. apply list_elem_of_here.
  - apply elem_of_cons in Hin as [->|Hin]; [by rewrite String.eqb_refl in E|].
    destruct (IH Hin) as (v & Hv & Hel). exists v. split; [done|].
    by apply list_elem_of_further.
Qed.

Lemma filter_none {A} (f : A -> bool) (l : list A) :
  (forall x, x ∈ l -> f x = false) -> List.filter f l = [].
Proof.
  induction l as [|x l IH]; intros H; [done|]. cbn.
  rewrite (H x (list_elem_of_here x l)). apply IH. intros y Hy. apply H.
  by apply list_elem_of_further.
Qed.

Lemma elem_of_filter_list {A} (f : A -> bool) (l : list A) x :
  x ∈ List.filter f l -> x ∈ l /\ f x = true.
Proof. rewrite list_elem_of_In. intros H%filter_In. by rewrite list_elem_of_In. Qed.

Lemma sync_ops_equal dom fields :
  Forall (fun p => snd p <> NaN) fields -> sync_ops dom fields fields = [].
Proof.
  intros Hnan. unfold sync_ops.
  assert (Hkey : forall key, key ∈ List.map fst fields ->
            negb (in_fields key fields) = false
            /\ negb (strict_eq (lookup_field key fields) (lookup_field key fields)) = false).
  { intros key Hkey. destruct (assoc_of_key key fields Hkey) as (v & Hv & Hel).
    unfold in_fields, lookup_field. rewrite Hv. cbn.
    rewrite Forall_forall in Hnan. specialize (Hnan _ Hel). cbn in Hnan.
    split; [done|]. by rewrite strict_eq_refl. }
  rewrite !filter_none; [done| | | |];
    intros key [Hk _]%elem_of_filter_list; destruct (Hkey key Hk) as [H1 H2];
    by rewrite ?H1, ?H2.
Qed.

(** X10. Synchronizing a display node against two property objects that hold
    the same properties with the same values does nothing at all, as long as
    no value is NaN: no listener is touched, no property is assigned and the
    state is unchanged.  (A NaN value counts as changed every time, since
    [isNew] compares with [!==].) *)
Theorem updateDom_equal_props_does_nothing
  (ld lp ln : loc) (n : dom_node) (fields : list (string * value)) (s : state) :
  heap s !! ld = Some (ODom n) ->
  heap s !! lp = Some (OObject fields) ->
  heap s !! ln = Some (OObject fields) ->
  Forall (fun p => snd p <> NaN) fields ->
  updateDom (VRef ld) (VRef lp) (VRef ln) s = (Ok tt, s).
Proof.
  intros Hd Hp Hn Hnan.
  rewrite (updateDom_run ld lp ln fields fields n s Hd Hp Hn).
  rewrite sync_ops_equal by done. by rewrite after_ops_nil.
Qed.

Lemma updateDom_equal_props_does_nothing_witness :
  updateDom (VRef 0) (VRef 2) (VRef 3) equal_props_state = (Ok tt, equal_props_state).
Proof.
  eapply updateDom_equal_props_does_nothing; try reflexivity.
  repeat constructor; discriminate.
Defined.

Lemma isProperty_not_children name :
  isProperty name = true -> name <> "children" /\ isEvent name = false.
Proof.
  unfold isProperty. intros [H1 H2]%andb_true_iff.
  split; [|by apply negb_true_iff]. apply negb_true_iff in H1. by apply String.eqb_neq.
Qed.

Lemma sync_ops_classified dom prevProps nextProps :
  Forall classified_op (sync_ops dom prevProps nextProps).
Proof.
  unfold sync_ops. rewrite !Forall_app. repeat split; rewrite Forall_forall;
    intros e [key [<- Hkey]]%list_elem_of_In%in_map_iff;
    apply list_elem_of_In in Hkey;
    apply elem_of_filter_list in Hkey as [Hkey _];
    apply elem_of_filter_list in Hkey as [_ Hkey]; cbn; eauto.
Qed.

(** X11. Whatever the two property objects hold, [updateDom] only ever
    assigns plain properties and only ever adds or removes listeners for
    [on] keys: the structural [children] entry is never assigned to the
    display node, an [on] key is never assigned as a property, and the event
    type of every listener operation is that of an [on] key. *)
Theorem updateDom_operations_are_classified
  (ld lp ln : loc) (n : dom_node) (prevProps nextProps : list (string * value))
  (s : state) :
  heap s !! ld = Some (ODom n) ->
  heap s !! lp = Some (OObject prevProps) ->
  heap s !! ln = Some (OObject nextProps) ->
  exists ops,
    trace (snd (updateDom (VRef ld) (VRef lp) (VRef ln) s)) = trace s ++ ops
    /\ Forall classified_op ops
    /\ forall dom name v, In (EvSetProperty dom name v) ops ->
         name <> "children" /\ isEvent name = false.
Proof.
  intros Hd Hp Hn. exists (sync_ops (VRef ld) prevProps nextProps).
  rewrite (updateDom_run ld lp ln prevProps nextProps n s Hd Hp Hn).
  split; [done|]. split; [apply sync_ops_classified|].
  intros dom name v Hin. apply isProperty_not_children.
  pose proof (sync_ops_classified (VRef ld) prevProps nextProps) as H.
  rewrite Forall_forall in H. apply list_elem_of_In in Hin. apply (H _ Hin).
Qed.

Lemma updateDom_operations_are_classified_witness :
  exists ops,
    trace (snd (updateDom (VRef 0) (VRef 3) (VRef 4) sync_state)) = ops
    /\ forall dom name v, In (EvSetProperty dom name v) ops -> name <> "children".
Proof.
  destruct (updateDom_operations_are_classified 0 3 4 _ _ _ sync_state
              eq_refl eq_refl eq_refl) as (ops & E & _ & H).
  exists ops. split; [exact E|]. intros dom name v Hin. by apply (H dom name v).
Defined.

(** ** Materialization of a node without children *)

Lemma strict_eq_null_nullish v : nullish v = false -> strict_eq v VNull = false.
Proof. by destruct v. Qed.

Lemma new_dom_alloc fiber type s :
  nullish fiber = false ->
  prop_get (heap s) fiber "type" = type ->
  (if strict_eq type (VString "TEXT_NODE") then document_createTextNode
   else type <- get_prop_opt fiber "type" ;; document_createElement type) s
  = (Ok (VRef (List.length (heap s))), set_heap (heap s ++ [ODom (new_dom type)]) s).
Proof.
  intros Hn Ht. unfold new_dom. destruct (strict_eq type (VString "TEXT_NODE")); [done|].
  rewrite (bind_ok _ _ _ _ _ (get_prop_opt_run fiber "type" s)). by rewrite Hn, Ht.
Qed.

(** The run of [createDom] on a node without children. *)
Lemma createDom_leaf_run
  (app : func -> list value -> M value) (fuel : nat) (fiber : value)
  (lp : loc) (fields : list (string * value)) (s : state) :
  nullish fiber = false ->
  typeof (heap s) (prop_get (heap s) fiber "type") <> "function" ->
  prop_get (heap s) fiber "props" = VRef lp ->
  heap s !! lp = Some (OObject fields) ->
  (truthy (lookup_field "children" fields) = false
   \/ exists lk, lookup_field "children" fields = VRef lk
                 /\ heap s !! lk = Some (OArray [])) ->
  createDom app (S fuel) fiber s
  = (Ok (VRef (List.length (heap s))),
     after_ops (List.length (heap s)) (new_dom (prop_get (heap s) fiber "type"))
       (sync_ops (VRef (List.length (heap s))) [] fields)
       (set_heap (heap s ++ [ODom (new_dom (prop_get (heap s) fiber "type")); OObject []]) s)).
Proof.
  intros Hn Hfun Hprops Hlp Hkids.
  set (type := prop_get (heap s) fiber "type") in *.
  set (len := List.length (heap s)) in *.
  assert (Hlen : lp < len) by (by eapply lookup_lt_Some).
  cbn [createDom]. rewrite (strict_eq_null_nullish _ Hn).
  rewrite (bind_ok _ _ _ _ _ (get_prop_run fiber "type" s Hn)). fold type.
  unfold type_of at 1. run_ok. apply String.eqb_neq in Hfun. rewrite Hfun.
  rewrite (bind_ok _ _ _ _ _ (get_prop_opt_run fiber "type" s)). rewrite Hn. fold type.
  rewrite (bind_ok _ _ _ _ _ (new_dom_alloc fiber type s Hn eq_refl)). fold len.
  set (s1 := set_heap (heap s ++ [ODom (new_dom type)]) s).
  rewrite (bind_ok _ _ _ _ _ (get_prop_opt_run fiber "props" s1)). rewrite Hn.
  assert (Hp1 : prop_get (heap s1) fiber "props" = VRef lp).
  { rewrite <- Hprops. unfold s1. cbn [heap set_heap].
    destruct fiber as [| | | | |l]; try done. unfold prop_get in *.
    destruct (heap s !! l) as [o|] eqn:E; [|done].
    by rewrite (lookup_app_l_Some _ _ _ _ E). }
  rewrite Hp1. cbn [nullish]. run_ok. run_ok.
  set (s2 := set_heap (heap s1 ++ [OObject []]) s1).
  assert (Hheap2 : heap s2 = heap s ++ [ODom (new_dom type); OObject []]).
  { unfold s2, s1. cbn [heap set_heap]. by rewrite <- app_assoc. }
  assert (Hd2 : heap s2 !! len = Some (ODom (new_dom type))).
  { rewrite Hheap2, lookup_app_r by (unfold len; lia).
    by replace (len - List.length (heap s)) with 0 by (unfold len; lia). }
  assert (He2 : heap s2 !! List.length (heap s1) = Some (OObject [])).
  { unfold s1. cbn [heap set_heap]. rewrite Hheap2, length_app. cbn [List.length].
    rewrite lookup_app_r by lia.
    by replace (_ - _) with 1 by lia. }
  assert (Hp2 : heap s2 !! lp = Some (OObject fields)).
  { rewrite Hheap2. by apply lookup_app_l_Some. }
  rewrite (bind_ok _ _ _ _ _
             (updateDom_run len (List.length (heap s1)) lp [] fields (new_dom type) s2
                Hd2 He2 Hp2)).
  set (s3 := after_ops len (new_dom type) (sync_ops (VRef len) [] fields) s2).
  assert (Hp3 : heap s3 !! lp = Some (OObject fields)).
  { apply (after_ops_shape len (List.length (heap s1)) lp [] fields (new_dom type) s2
             Hd2 He2 Hp2). }
  assert (Hc3 : prop_get (heap s3) (VRef lp) "children" = lookup_field "children" fields).
  { unfold prop_get. by rewrite Hp3. }
  rewrite (bind_ok _ _ _ _ _ (get_prop_run (VRef lp) "children" s3 eq_refl)). rewrite Hc3.
  assert (Es3 : s3 = after_ops len (new_dom type) (sync_ops (VRef len) [] fields)
                       (set_heap (heap s ++ [ODom (new_dom type); OObject []]) s)).
  { unfold s3, after_ops. rewrite Hheap2. reflexivity. }
  destruct Hkids as [Hfalsy|(lk & Hlk & Hempty)].
  - rewrite Hfalsy. run_ok. unfold ret. by rewrite Es3.
  - rewrite Hlk. cbn [truthy].
    assert (Hlk3 : heap s3 !! lk = Some (OArray [])).
    { unfold s3, after_ops. cbn [heap]. rewrite Hheap2.
      assert (lk < len) by (by eapply lookup_lt_Some).
      rewrite list_lookup_insert_ne by lia. by apply lookup_app_l_Some. }
    rewrite (bind_ok _ _ _ tt s3); [unfold ret; by rewrite Es3|].
    rewrite (bind_ok _ _ _ _ _ (get_prop_run (VRef lp) "children" s3 eq_refl)).
    rewrite Hc3, Hlk. unfold array_forEach.
    assert (E : array_elems (VRef lk) s3 = (Ok [], s3)).
    { unfold array_elems. by rewrite Hlk3. }
    by rewrite (bind_ok _ _ _ _ _ E).
Qed.



(** ** Materialization of an array *)

Lemma array_named_prop (h : heap_t) (la : loc) (es : list value) (key : string) :
  h !! la = Some (OArray es) ->
  String.eqb key "length" = false ->
  NilZero.uint_of_string key = None ->
  prop_get h (VRef la) key = VUndefined.
Proof.
  intros Hla Hlen Hkey. unfold prop_get. rewrite Hla, Hlen.
  change (indexed es) with (imap (fun j x => (index_key (0 + j), x)) es).
  rewrite (assoc_imap_none key es 0); [done|].
  intros j Hj. pose proof (index_key_parse j) as Hp. rewrite Hj in Hp. congruence.
Qed.

(** X13. An array given to [createDom] is not materialized element by
    element: whatever its elements are, the result is a new element node of
    kind [undefined] with no property, no listener and no child, and no
    display operation is made.  The heap gains that node and the two empty
    objects passed to [updateDom]; nothing else changes. *)
Theorem createDom_of_array_drops_elements
  (app : func -> list value -> M value) (fuel : nat)
  (la : loc) (es : list value) (s : state) :
  heap s !! la = Some (OArray es) ->
  createDom app (S fuel) (VRef la) s
  = (Ok (VRef (List.length (heap s))),
     set_heap (heap s ++ [ODom (mkDom (DElement VUndefined) [] [] []);
                          OObject []; OObject []]) s).
Proof.
  intros Hla.
  assert (Ht : prop_get (heap s) (VRef la) "type" = VUndefined)
    by (by eapply array_named_prop).
  assert (Hp : prop_get (heap s) (VRef la) "props" = VUndefined)
    by (by eapply array_named_prop).
  set (len := List.length (heap s)).
  assert (Hlen : la < len) by (by eapply lookup_lt_Some).
  cbn [createDom]. rewrite (strict_eq_null_nullish (VRef la) eq_refl).
  rewrite (bind_ok _ _ _ _ _ (get_prop_run (VRef la) "type" s eq_refl)). rewrite Ht.
  unfold type_of at 1. run_ok. cbn [typeof]. cbv iota.
  change (String.eqb "undefined" "function") with false. cbv iota.
  rewrite (bind_ok _ _ _ _ _ (get_prop_opt_run (VRef la) "type" s)).
  cbn [nullish]. rewrite Ht.
  rewrite (bind_ok _ _ _ _ _ (new_dom_alloc (VRef la) VUndefined s eq_refl Ht)). fold len.
  change (new_dom VUndefined) with (mkDom (DElement VUndefined) [] [] []).
  set (n0 := mkDom (DElement VUndefined) [] [] []).
  set (s1 := set_heap (heap s ++ [ODom n0]) s).
  rewrite (bind_ok _ _ _ _ _ (get_prop_opt_run (VRef la) "props" s1)). cbn [nullish].
  assert (Hp1 : prop_get (heap s1) (VRef la) "props" = VUndefined).
  { eapply array_named_prop; [|done..]. unfold s1. cbn [heap set_heap].
    by apply lookup_app_l_Some. }
  rewrite Hp1. cbn [nullish]. run_ok. run_ok.
  set (s2 := set_heap (heap s1 ++ [OObject []]) s1).
  set (s3 := set_heap (heap s2 ++ [OObject []]) s2).
  assert (Hheap3 : heap s3 = heap s ++ [ODom n0; OObject []; OObject []]).
  { unfold s3, s2, s1. cbn [heap set_heap]. by rewrite <- !app_assoc. }
  assert (Hl1 : List.length (heap s1) = S len).
  { unfold s1. cbn [heap set_heap]. rewrite length_app. cbn. unfold len. lia. }
  assert (Hl2 : List.length (heap s2) = S (S len)).
  { unfold s2. cbn [heap set_heap]. rewrite length_app, Hl1. cbn. lia. }
  assert (Hd3 : heap s3 !! len = Some (ODom n0)).
  { rewrite Hheap3, lookup_app_r by (unfold len; lia).
    by replace (len - List.length (heap s)) with 0 by (unfold len; lia). }
  assert (Hn3 : heap s3 !! List.length (heap s1) = Some (OObject [])).
  { rewrite Hheap3, Hl1, lookup_app_r by (unfold len; lia).
    by replace (S len - List.length (heap s)) with 1 by (unfold len; lia). }
  assert (He3 : heap s3 !! List.length (heap s2) = Some (OObject [])).
  { rewrite Hheap3, Hl2, lookup_app_r by (unfold len; lia).
    by replace (S (S len) - List.length (heap s)) with 2 by (unfold len; lia). }
  rewrite (bind_ok _ _ _ _ _
             (updateDom_run len (List.length (heap s2)) (List.length (heap s1)) [] [] n0 s3
                Hd3 He3 Hn3)).
  change (sync_ops (VRef len) [] []) with (@nil event).
  rewrite (after_ops_nil len n0 s3 Hd3).
  rewrite (bind_ok _ _ _ _ _ (get_prop_run (VRef (List.length (heap s1))) "children" s3 eq_refl)).
  unfold prop_get. rewrite Hn3. cbn [assoc default truthy]. run_ok. unfold ret.
  f_equal. unfold s3, s2, s1. cbn [heap set_heap]. destruct s. cbn.
  by rewrite <- !app_assoc.
Qed.

Lemma createDom_of_array_drops_elements_witness :
  createDom (app_of Static) 1 (VRef 3) static_state
  = (Ok (VRef 6),
     set_heap (heap static_state ++ [ODom (mkDom (DElement VUndefined) [] [] []);
                                     OObject []; OObject []]) static_state).
Proof. apply (createDom_of_array_drops_elements (app_of Static) 0 3 [VRef 2]). reflexivity. Defined.

(** ** A whole render of a node without children *)

Lemma remove_children_run (lr : loc) (nr : dom_node) (s : state) :
  heap s !! lr = Some (ODom nr) ->
  Forall (fun c => truthy c = true) (dom_children nr) ->
  remove_children (VRef lr) s
  = (Ok tt,
     set_heap (<[lr := ODom (mkDom (dom_kind_of nr) (dom_props nr) (dom_listeners nr) [])]>
                 (heap s)) s).
Proof.
  intros Hlr Hkids. unfold remove_children.
  rewrite (bind_ok _ _ _ _ _ (get_prop_run (VRef lr) "firstChild" s eq_refl)).
  unfold prop_get. rewrite Hlr. cbn [String.eqb Ascii.eqb Bool.eqb]. cbv iota.
  unfold first_child. destruct nr as [k ps ls [|c cs]]; cbn [dom_children] in *.
  - cbn [truthy]. unfold ret. rewrite list_insert_id by done. by destruct s.
  - apply Forall_cons in Hkids as [Hc _]. rewrite Hc.
    unfold update_dom. by rewrite Hlr.
Qed.


